(** * combine_sprites.py: the animation atlas composer

    A shallow embedding of [scripts/combine_sprites.py].

    - The asset tree below [assets/sprites/pixellab] is an [entry] tree
      (file names are byte strings, compared the way Python compares the
      decoded names: lexicographically).
    - The order in which the operating system enumerates a directory
      ([Path.iterdir], the scan behind [Path.glob]) is not fixed: it is the
      parameter [iterdir_order] of the section below, a function of the
      directory's path and of its entries.
    - Pillow images are [image] records (width, height, RGBA pixel function);
      a frame file holds the image [Image.open] decodes (already converted to
      RGBA, as [Image.paste] does), or [None] when Pillow cannot decode it.
    - The script's effects (prints, [mkdir], sheet and JSON writes) and its
      exceptions are threaded through a small trace/error monad [M]. *)

From Stdlib Require Import String List Arith Lia Bool Permutation Sorted.
From Stdlib Require Import Structures.OrdersEx FunctionalExtensionality.
Import ListNotations.

Local Open Scope nat_scope.
Local Set Warnings "-register-all".

(** ** Images *)

Record rgba := RGBA { red : nat; green : nat; blue : nat; alpha : nat }.

Definition transparent : rgba := RGBA 0 0 0 0.

Record image := Image { img_w : nat; img_h : nat; img_px : nat -> nat -> rgba }.

(** [Image.new("RGBA", (w, h), (0, 0, 0, 0))] *)
Definition image_new (w h : nat) : image := Image w h (fun _ _ => transparent).

(** [sheet.paste(frame, (x, y))] without a mask: the frame's pixels (alpha
    included) replace the sheet's on the frame's rectangle, clipped to the
    sheet. *)
Definition paste (sheet frame : image) (x y : nat) : image :=
  Image (img_w sheet) (img_h sheet)
    (fun i j =>
       if (x <=? i) && (i <? x + img_w frame) && (y <=? j) && (j <? y + img_h frame)
          && (i <? img_w sheet) && (j <? img_h sheet)
       then img_px frame (i - x) (j - y)
       else img_px sheet i j).

(** ** The asset tree *)

Inductive entry : Type :=
| File (fname : string) (data : option image)
| Dir (dname : string) (children : list entry).

Definition path := list string.

Definition name (e : entry) : string :=
  match e with File n _ => n | Dir n _ => n end.

Definition is_dir (e : entry) : bool :=
  match e with Dir _ _ => true | File _ _ => false end.

Definition find_child (c : string) (ch : list entry) : option entry :=
  find (fun e => String.eqb (name e) c) ch.

(** [p / c], resolved: [None] when the path does not exist. *)
Definition child (p : option entry) (c : string) : option entry :=
  match p with
  | Some (Dir _ ch) => find_child c ch
  | _ => None
  end.

(** [Path.exists()] *)
Definition exists_ (p : option entry) : bool :=
  match p with Some _ => true | None => false end.

(** Names in a directory are distinct, at every level of the tree. *)
Fixpoint nodup_names (l : list string) : bool :=
  match l with
  | [] => true
  | x :: r => negb (existsb (String.eqb x) r) && nodup_names r
  end.

Fixpoint wfb (e : entry) : bool :=
  match e with
  | File _ _ => true
  | Dir _ ch =>
      nodup_names (map name ch) &&
      (fix all (l : list entry) : bool :=
         match l with [] => true | x :: r => wfb x && all r end) ch
  end.

(** ** Sorting ([sorted(...)] on paths of one directory compares names) *)

Definition name_compare (a b : entry) : comparison :=
  String_as_OT.compare (name a) (name b).

Fixpoint insert_entry (e : entry) (l : list entry) : list entry :=
  match l with
  | [] => [e]
  | x :: r =>
      match name_compare e x with
      | Gt => x :: insert_entry e r
      | _ => e :: x :: r
      end
  end.

Fixpoint sorted_entries (l : list entry) : list entry :=
  match l with
  | [] => []
  | x :: r => insert_entry x (sorted_entries r)
  end.

(** ** Python dictionaries with insertion order *)

Fixpoint dict_get {V : Type} (k : string) (d : list (string * V)) : option V :=
  match d with
  | [] => None
  | (k', v) :: r => if String.eqb k k' then Some v else dict_get k r
  end.

(** [d.get(k, default)] *)
Definition dict_get_or {V : Type} (k : string) (d : list (string * V)) (dflt : V) : V :=
  match dict_get k d with Some v => v | None => dflt end.

(** [k in d] *)
Definition in_keys {V : Type} (k : string) (d : list (string * V)) : bool :=
  match dict_get k d with Some _ => true | None => false end.

(** [d[k] = v]: an existing key keeps its position. *)
Fixpoint dict_set {V : Type} (k : string) (v : V) (d : list (string * V))
  : list (string * V) :=
  match d with
  | [] => [(k, v)]
  | (k', v') :: r => if String.eqb k k' then (k', v) :: r else (k', v') :: dict_set k v r
  end.

(** ** The static tables *)

Definition ANIM_ORDER : list (string * option string) :=
  [("idle", Some "breathing-idle");
   ("run", Some "running-6-frames");
   ("jump", Some "two-footed-jump");
   ("special", None);
   ("attack", Some "cross-punch")]%string.

Definition SPECIAL_ANIMS : list (string * string) :=
  [("bolt", "hurricane-kick");
   ("gale", "hurricane-kick");
   ("vex", "running-slide");
   ("forge", "running-slide");
   ("nimbus", "jumping-1")]%string.

Definition ENEMY_ANIM_ORDER : list (string * list (string * string)) :=
  [("slime", [("idle", "breathing-idle"); ("walk", "walking");
              ("jump", "jumping-1"); ("hurt", "taking-punch")]);
   ("bat", [("idle", "breathing-idle"); ("walk", "walking-6-frames");
            ("fly", "jumping-1"); ("hurt", "taking-punch")]);
   ("skeleton", [("idle", "breathing-idle"); ("walk", "walking-6-frames");
                 ("attack", "cross-punch"); ("hurt", "falling-back-death")])]%string.

Definition DIRECTIONS : list string := ["south"; "west"; "east"; "north"]%string.

Definition FRAME_SIZE : nat := 64.

(** [pixellab_name = SPECIAL_ANIMS.get(char_name, "")] for the [None] row. *)
Definition resolve_hero (char_name : string) (pl : option string) : string :=
  match pl with
  | Some s => s
  | None => dict_get_or char_name SPECIAL_ANIMS ""%string
  end.

(** The glob pattern ["frame_*.png"]. *)
Definition glob_frame (n : string) : bool :=
  String.prefix "frame_" n && (10 <=? String.length n)
  && String.eqb (String.substring (String.length n - 4) 4 n) ".png".

(** ** Metadata, events and the trace/error monad *)

(** [{"row": row, "frames": len(frames), "source": pixellab_name}] *)
Record anim_meta := AnimMeta { am_row : nat; am_frames : nat; am_source : string }.

Definition anims_meta := list (string * anim_meta).

(** [{"sheet": ..., "animations": anim_meta}] *)
Record dir_meta := DirMeta { dm_sheet : string; dm_animations : anims_meta }.

(** [process_character] writes ["character"], [process_enemy] writes ["enemy"]. *)
Inductive entity_meta :=
| CharacterMeta (character : string) (frame_size max_frames : nat)
    (directions : list (string * dir_meta))
| EnemyMeta (enemy : string) (frame_size max_frames : nat)
    (directions : list (string * dir_meta)).

Definition metadata_doc := list (string * entity_meta).

(** The script's [print] calls. *)
Inductive msg :=
| MRootNotFound                                  (* Error: ... not found *)
| MProcessing (char_name : string)               (* Processing {char_name}... *)
| MProcessingEnemy (enemy_name : string)         (* Processing enemy: ... *)
| MMaxFrames (n : nat)                           (* Max frames per row: ... *)
| MCreating (direction : string)                 (* Creating {direction} sheet... *)
| MSaved (p : path)                              (* Saved: {out_path} *)
| MWarnNoFrames (who pixellab_name direction : string)
| MEnemiesHeader                                 (* --- Processing Enemies --- *)
| MMetadataSaved (p : path)
| MTomlHeader                                    (* Example TOML config ... *)
| MTomlSnippet (east_anims : anims_meta).        (* the [render] snippet for bolt *)

(** Observable effects; paths are relative to [assets/sprites/pixellab]. *)
Inductive event :=
| Print (m : msg)
| Mkdir (p : path)
| SavePng (p : path) (img : image)
| WriteJson (p : path) (doc : metadata_doc).

Inductive exn :=
| NotADirectory        (* NotADirectoryError *)
| IsADirectory         (* IsADirectoryError *)
| FileExists           (* FileExistsError *)
| UnidentifiedImage    (* PIL.UnidentifiedImageError *)
| PngEncodeError       (* Pillow: "tile cannot extend outside image" *)
| KeyError.

Inductive res (A : Type) := Ok (a : A) | Raise (e : exn).
Arguments Ok {A} a.
Arguments Raise {A} e.

Definition M (A : Type) := list event -> list event * res A.

Definition ret {A : Type} (a : A) : M A := fun t => (t, Ok a).

Definition bind {A B : Type} (m : M A) (k : A -> M B) : M B :=
  fun t => match m t with
           | (t', Ok a) => k a t'
           | (t', Raise e) => (t', Raise e)
           end.

Definition raise {A : Type} (e : exn) : M A := fun t => (t, Raise e).

Definition tell (ev : event) : M unit := fun t => (t ++ [ev], Ok tt).

Notation "x <- m ;; k" := (bind m (fun x => k))
  (at level 61, m at next level, right associativity).
Notation "' p <- m ;; k" := (bind m (fun x => match x with p => k end))
  (at level 61, p pattern, m at next level, right associativity).
Notation "m ;; k" := (bind m (fun _ => k)) (at level 61, right associativity).

(** A [for] loop threading an accumulator. *)
Fixpoint foldM {A B : Type} (f : A -> B -> M A) (acc : A) (l : list B) : M A :=
  match l with
  | [] => ret acc
  | x :: r => a <- f acc x ;; foldM f a r
  end.

(** [Image.open(frame_path)] *)
Definition image_open (e : entry) : M image :=
  match e with
  | File _ (Some img) => ret img
  | File _ None => raise UnidentifiedImage
  | Dir _ _ => raise IsADirectory
  end.

(** Pillow's PNG encoder rejects an image with a zero dimension. *)
Definition png_encodable (img : image) : bool := (0 <? img_w img) && (0 <? img_h img).

(** [for col, frame_path in enumerate(frames): sheet.paste(frame, (x, y))] *)
Fixpoint paste_frames (sheet : image) (frames : list entry) (row col : nat) : M image :=
  match frames with
  | [] => ret sheet
  | fp :: rest =>
      frame <- image_open fp ;;
      paste_frames (paste sheet frame (col * FRAME_SIZE) (row * FRAME_SIZE)) rest row (S col)
  end.

(** Python's [enumerate]. *)
Definition enumerate {A : Type} (l : list A) : list (nat * A) := combine (seq 0 (length l)) l.

Definition hero_plan (char_name : string) : list (string * string) :=
  map (fun '(s, pl) => (s, resolve_hero char_name pl)) ANIM_ORDER.

Definition enemy_plan (enemy_name : string) : list (string * string) :=
  dict_get_or enemy_name ENEMY_ANIM_ORDER [].

Definition skip_dirs : list string := ["sheets"; "enemies"; "objects"; "tilesets"]%string.

Definition in_list (s : string) (l : list string) : bool := existsb (String.eqb s) l.

Definition sheet_file (n direction : string) : string := (n ++ "_" ++ direction ++ ".png")%string.

(** [output_dir.mkdir(exist_ok=True)]; returns the root as it is afterwards. *)
Definition mkdir_sheets (root : entry) : M entry :=
  match root with
  | File _ _ => raise NotADirectory
  | Dir r ch =>
      match find_child "sheets" ch with
      | None => tell (Mkdir ["sheets"%string]) ;; ret (Dir r (ch ++ [Dir "sheets" []]))
      | Some (Dir _ _) => ret root
      | Some (File _ _) => raise FileExists
      end
  end.

(** [sheet.save(out_path, "PNG")]; [out_dir] is what [sheets/] held before the run. *)
Definition save_png (out_dir : option entry) (fname : string) (img : image) : M unit :=
  match child out_dir fname with
  | Some (Dir _ _) => raise IsADirectory
  | _ => if png_encodable img then tell (SavePng ["sheets"%string; fname] img)
         else raise PngEncodeError
  end.

(** [with open(meta_path, "w") as f: json.dump(all_metadata, f, indent=2)] *)
Definition write_json (out_dir : option entry) (fname : string) (doc : metadata_doc) : M unit :=
  match child out_dir fname with
  | Some (Dir _ _) => raise IsADirectory
  | _ => tell (WriteJson ["sheets"%string; fname] doc)
  end.

Section Composer.

(** Enumeration order of a directory's entries, chosen by the OS. *)
Variable iterdir_order : path -> list entry -> list entry.

(** [get_frame_files(anim_dir, direction)]; [anim_path] is the path of
    [anim_dir], [anim_dir] what it resolves to. *)
Definition get_frame_files (anim_path : path) (anim_dir : option entry)
    (direction : string) : list entry :=
  match child anim_dir direction with
  | None => []
  | Some (File _ _) => []
  | Some (Dir _ ch) =>
      sorted_entries
        (filter (fun e => glob_frame (name e)) (iterdir_order (anim_path ++ [direction]) ch))
  end.

(** The inner [for d in DIRECTIONS: ... break] of [count_max_frames]. *)
Fixpoint first_direction_max (max_frames : nat) (anim_path : path)
    (anim_dir : option entry) (ds : list string) : nat :=
  match ds with
  | [] => max_frames
  | d :: ds' =>
      match get_frame_files anim_path anim_dir d with
      | [] => first_direction_max max_frames anim_path anim_dir ds'
      | frames => Nat.max max_frames (length frames)
      end
  end.

(** One iteration of the outer loop of [count_max_frames] and
    [count_enemy_max_frames], after [pixellab_name] is resolved. *)
Definition count_row (anims_path : path) (anims_dir : option entry)
    (max_frames : nat) (pixellab_name : string) : nat :=
  if String.eqb pixellab_name "" then max_frames
  else
    let anim_path := child anims_dir pixellab_name in
    if exists_ anim_path
    then first_direction_max max_frames (anims_path ++ [pixellab_name]) anim_path DIRECTIONS
    else max_frames.

Definition count_max_frames (char_path : path) (char_dir : entry) (char_name : string) : nat :=
  let anims_path := char_path ++ ["animations"%string] in
  let anims_dir := child (Some char_dir) "animations" in
  fold_left
    (fun mf '(_, pl) => count_row anims_path anims_dir mf (resolve_hero char_name pl))
    ANIM_ORDER 0.

Definition count_enemy_max_frames (enemy_path : path) (enemy_dir : entry)
    (enemy_name : string) : nat :=
  let anims_path := enemy_path ++ ["animations"%string] in
  let anims_dir := child (Some enemy_dir) "animations" in
  let anim_order := dict_get_or enemy_name ENEMY_ANIM_ORDER [] in
  fold_left (fun mf '(_, pn) => count_row anims_path anims_dir mf pn) anim_order 0.

(** One iteration of the row loop of [create_sprite_sheet] and
    [create_enemy_sprite_sheet]: [(row, (state_name, pixellab_name))]. *)
Definition compose_row (anims_path : path) (anims_dir : option entry)
    (who direction : string) (acc : image * anims_meta)
    (r : nat * (string * string)) : M (image * anims_meta) :=
  let '(row, (state_name, pixellab_name)) := r in
  if String.eqb pixellab_name "" then ret acc
  else
    let frames := get_frame_files (anims_path ++ [pixellab_name])
                    (child anims_dir pixellab_name) direction in
    match frames with
    | [] => tell (Print (MWarnNoFrames who pixellab_name direction)) ;; ret acc
    | _ =>
        sheet <- paste_frames (fst acc) frames row 0 ;;
        ret (sheet, dict_set state_name (AnimMeta row (length frames) pixellab_name) (snd acc))
    end.

Definition create_sprite_sheet (char_path : path) (char_dir : entry) (char_name direction : string)
    (max_frames : nat) : M (image * anims_meta) :=
  let num_rows := length ANIM_ORDER in
  let sheet := image_new (max_frames * FRAME_SIZE) (num_rows * FRAME_SIZE) in
  foldM (compose_row (char_path ++ ["animations"%string]) (child (Some char_dir) "animations")
           char_name direction)
    (sheet, []) (enumerate (hero_plan char_name)).

Definition create_enemy_sprite_sheet (enemy_path : path) (enemy_dir : entry)
    (enemy_name direction : string) (max_frames : nat) : M (image * anims_meta) :=
  let anim_order := enemy_plan enemy_name in
  let num_rows := length anim_order in
  let sheet := image_new (max_frames * FRAME_SIZE) (num_rows * FRAME_SIZE) in
  foldM (compose_row (enemy_path ++ ["animations"%string]) (child (Some enemy_dir) "animations")
           enemy_name direction)
    (sheet, []) (enumerate anim_order).

(** The loop over [DIRECTIONS] shared by [process_character] and
    [process_enemy]; [create] is the per-direction compositor. *)
Definition directions_loop (out_dir : option entry) (n : string)
    (create : string -> M (image * anims_meta)) : M (list (string * dir_meta)) :=
  foldM (fun acc direction =>
           tell (Print (MCreating direction)) ;;
           '(sheet, anim_meta) <- create direction ;;
           let f := sheet_file n direction in
           save_png out_dir f sheet ;;
           tell (Print (MSaved ["sheets"%string; f])) ;;
           ret (dict_set direction (DirMeta ("pixellab/sheets/" ++ f) anim_meta) acc))
    [] DIRECTIONS.

Definition process_character (out_dir : option entry) (char_path : path) (char_dir : entry)
  : M entity_meta :=
  let char_name := name char_dir in
  tell (Print (MProcessing char_name)) ;;
  let max_frames := count_max_frames char_path char_dir char_name in
  tell (Print (MMaxFrames max_frames)) ;;
  dirs <- directions_loop out_dir char_name
            (fun direction => create_sprite_sheet char_path char_dir char_name direction max_frames) ;;
  ret (CharacterMeta char_name FRAME_SIZE max_frames dirs).

Definition process_enemy (out_dir : option entry) (enemy_path : path) (enemy_dir : entry)
  : M entity_meta :=
  let enemy_name := name enemy_dir in
  tell (Print (MProcessingEnemy enemy_name)) ;;
  let max_frames := count_enemy_max_frames enemy_path enemy_dir enemy_name in
  tell (Print (MMaxFrames max_frames)) ;;
  dirs <- directions_loop out_dir enemy_name
            (fun direction =>
               create_enemy_sprite_sheet enemy_path enemy_dir enemy_name direction max_frames) ;;
  ret (EnemyMeta enemy_name FRAME_SIZE max_frames dirs).

(** [Path.iterdir()] *)
Definition iterdir (p : path) (d : entry) : M (list entry) :=
  match d with
  | Dir _ ch => ret (iterdir_order p ch)
  | File _ _ => raise NotADirectory
  end.

Definition hero_step (out_dir : option entry) (acc : metadata_doc) (char_dir : entry)
  : M metadata_doc :=
  if is_dir char_dir && negb (in_list (name char_dir) skip_dirs) then
    if exists_ (child (Some char_dir) "animations") then
      m <- process_character out_dir [name char_dir] char_dir ;;
      ret (dict_set (name char_dir) m acc)
    else ret acc
  else ret acc.

Definition enemy_step (out_dir : option entry) (acc : metadata_doc) (enemy_dir : entry)
  : M metadata_doc :=
  if is_dir enemy_dir && in_keys (name enemy_dir) ENEMY_ANIM_ORDER then
    m <- process_enemy out_dir ["enemies"%string; name enemy_dir] enemy_dir ;;
    ret (dict_set (name enemy_dir) m acc)
  else ret acc.

(** The TOML example printed at the end ([bolt["directions"]["east"]]). *)
Definition toml_example (doc : metadata_doc) : M unit :=
  tell (Print MTomlHeader) ;;
  match dict_get "bolt" doc with
  | None => ret tt
  | Some (CharacterMeta _ _ _ dirs) | Some (EnemyMeta _ _ _ dirs) =>
      match dict_get "east" dirs with
      | Some dm => tell (Print (MTomlSnippet (dm_animations dm)))
      | None => raise KeyError
      end
  end.

(** The enemy part of [main()], on the root after [mkdir]. *)
Definition process_enemies (output_dir : option entry) (rt' : entry) (all_metadata : metadata_doc)
  : M metadata_doc :=
  match child (Some rt') "enemies" with
  | None => ret all_metadata
  | Some enemies_dir =>
      tell (Print MEnemiesHeader) ;;
      es <- iterdir ["enemies"%string] enemies_dir ;;
      foldM (enemy_step output_dir) all_metadata (sorted_entries es)
  end.

(** The end of [main()]: the metadata document and the TOML example. *)
Definition finish (output_dir : option entry) (all_metadata : metadata_doc) : M unit :=
  write_json output_dir "metadata.json" all_metadata ;;
  tell (Print (MMetadataSaved ["sheets"%string; "metadata.json"%string])) ;;
  toml_example all_metadata.

(** [main()] after [output_dir.mkdir(exist_ok=True)]. *)
Definition process_all (output_dir : option entry) (rt' : entry) : M unit :=
  entries <- iterdir [] rt' ;;
  all_metadata <- foldM (hero_step output_dir) [] (sorted_entries entries) ;;
  all_metadata' <- process_enemies output_dir rt' all_metadata ;;
  finish output_dir all_metadata'.

(** [main()]; [root] is what [assets/sprites/pixellab] resolves to.  The
    [sheets/] directory created by [mkdir] is part of the root that
    [iterdir] lists afterwards; files written into it during the run are not
    read back. *)
Definition main (root : option entry) : M unit :=
  match root with
  | None => tell (Print MRootNotFound)
  | Some rt =>
      let output_dir := child (Some rt) "sheets" in
      rt' <- mkdir_sheets rt ;;
      process_all output_dir rt'
  end.

(** The process: [main()] called from [if __name__ == "__main__"]; an
    uncaught exception gives exit status 1, a normal return 0. *)
Definition run_script (root : option entry) : list event * nat :=
  match main root [] with
  | (t, Ok _) => (t, 0)
  | (t, Raise _) => (t, 1)
  end.

End Composer.

Definition has_frames (l : list entry) : bool := match l with [] => false | _ => true end.

(** ** The spec's sampling rule (§4.3), stated on its own

    For each row of the plan with a source name, the representative sample
    is the length of the FrameSequence of the first direction, in
    [DIRECTIONS] order, that has any frames (0 if none has); the computed
    [max_frames] is the largest sample. *)

Definition first_nonempty_sample (o : path -> list entry -> list entry)
    (anim_path : path) (anim_dir : option entry) : nat :=
  match find (fun d => has_frames (get_frame_files o anim_path anim_dir d)) DIRECTIONS with
  | Some d => length (get_frame_files o anim_path anim_dir d)
  | None => 0
  end.

Definition spec_max_frames (o : path -> list entry -> list entry) (anims_path : path)
    (anims_dir : option entry) (plan : list (string * string)) : nat :=
  list_max
    (map (fun '(_, pn) =>
            if String.eqb pn "" then 0
            else first_nonempty_sample o (anims_path ++ [pn]) (child anims_dir pn))
       plan).

(** ** Sample trees *)

Definition red_px : image := Image 64 64 (fun _ _ => RGBA 255 0 0 255).

Definition frame_file (n : string) : entry := File n (Some red_px).

Definition list_order : path -> list entry -> list entry := fun _ l => l.

Definition rev_order : path -> list entry -> list entry := fun _ l => rev l.

(** The scenario of spec §8: [breathing-idle] has 4 frames facing south and
    6 facing east, [running-6-frames] has none. *)
Definition hero_a : entry :=
  Dir "bolt" [Dir "animations" [Dir "breathing-idle" [
    Dir "east" [frame_file "frame_005.png"; frame_file "frame_000.png";
                frame_file "frame_001.png"; frame_file "frame_002.png";
                frame_file "frame_003.png"; frame_file "frame_004.png"];
    Dir "south" [frame_file "frame_000.png"; frame_file "frame_001.png";
                 frame_file "frame_002.png"; frame_file "frame_003.png";
                 File "notes.txt" None]]]]%string.

Example hero_a_max_frames : count_max_frames list_order ["bolt"%string] hero_a "bolt" = 4.
Proof. reflexivity. Qed.

(** ** Max-frame calculator *)

Lemma get_frame_files_missing o ap d : get_frame_files o ap None d = [].
Proof. reflexivity. Qed.

Lemma first_direction_max_spec o m ap anim ds :
  first_direction_max o m ap anim ds =
  Nat.max m (match find (fun d => has_frames (get_frame_files o ap anim d)) ds with
             | Some d => length (get_frame_files o ap anim d)
             | None => 0
             end).
Proof.
  induction ds as [|d ds IH]; simpl; [lia|].
  destruct (get_frame_files o ap anim d) eqn:E; simpl; [exact IH|].
  rewrite E. reflexivity.
Qed.

Lemma count_row_spec o ap ad m pn :
  count_row o ap ad m pn =
  Nat.max m (if String.eqb pn "" then 0 else first_nonempty_sample o (ap ++ [pn]) (child ad pn)).
Proof.
  unfold count_row, first_nonempty_sample.
  destruct (String.eqb pn "") ; [lia|].
  destruct (exists_ (child ad pn)) eqn:Ex.
  - apply first_direction_max_spec.
  - destruct (child ad pn); [discriminate|]. simpl. lia.
Qed.

Lemma fold_count_row_spec o ap ad (plan : list (string * string)) m :
  fold_left (fun mf '(_, pn) => count_row o ap ad mf pn) plan m =
  Nat.max m (spec_max_frames o ap ad plan).
Proof.
  unfold spec_max_frames.
  revert m; induction plan as [|[s pn] plan IH]; intros m; simpl; [lia|].
  rewrite IH, count_row_spec. lia.
Qed.

Example hero_a_east_has_six :
  length (get_frame_files list_order ["bolt"; "animations"; "breathing-idle"]%string
            (child (child (Some hero_a) "animations") "breathing-idle") "east") = 6.
Proof. reflexivity. Qed.

(** C1. [max_frames] is the largest per-row sample, where a row's sample is
    the frame count of the first direction (south, west, east, north) that
    has frames for it; frames of later directions are not looked at.  For
    heroes and for enemies. *)
Theorem count_max_frames_first_nonempty_direction
    (o : path -> list entry -> list entry) (char_path : path) (char_dir : entry)
    (char_name : string) (enemy_path : path) (enemy_dir : entry) (enemy_name : string) :
  count_max_frames o char_path char_dir char_name =
    spec_max_frames o (char_path ++ ["animations"%string])
      (child (Some char_dir) "animations") (hero_plan char_name)
  /\ count_enemy_max_frames o enemy_path enemy_dir enemy_name =
    spec_max_frames o (enemy_path ++ ["animations"%string])
      (child (Some enemy_dir) "animations") (enemy_plan enemy_name).
Proof.
  split.
  - change (count_max_frames o char_path char_dir char_name) with
      (fold_left (fun mf '(_, pn) =>
                    count_row o (char_path ++ ["animations"%string])
                      (child (Some char_dir) "animations") mf pn)
         (hero_plan char_name) 0).
    rewrite fold_count_row_spec. lia.
  - unfold count_enemy_max_frames. rewrite fold_count_row_spec. reflexivity.
Qed.

(** ** C2: a missing root *)

(** C2 (counterexample). With no [assets/sprites/pixellab] directory the
    script prints its diagnostic and returns from [main()] normally: the
    process exit status is 0, not a non-zero status. *)
Lemma missing_root_exit_status_zero : snd (run_script list_order None) = 0.
Proof. reflexivity. Qed.

(** C2 (amended). If the root directory is absent, the run prints one
    diagnostic and does nothing else (no directory created, no sheet and no
    metadata written), and the process finishes with exit status 0. *)
Theorem missing_root_only_diagnostic (o : path -> list entry -> list entry) :
  run_script o None = ([Print MRootNotFound], 0).
Proof. reflexivity. Qed.

(** ** Reasoning about [M]: emitted events and results *)

(** [m] only appends events satisfying [P], and its result satisfies [Q]. *)
Definition spec_M {A : Type} (P : event -> Prop) (Q : A -> Prop) (m : M A) : Prop :=
  forall t t' r, m t = (t', r) ->
    exists tn, t' = t ++ tn /\ Forall P tn /\ (forall a, r = Ok a -> Q a).

Lemma spec_ret {A} P (Q : A -> Prop) a : Q a -> spec_M P Q (ret a).
Proof.
  intros HQ t t' r E. inversion E; subst.
  exists []. rewrite app_nil_r. split; [reflexivity|]. split; [constructor|].
  intros a' Ha'. inversion Ha'; subst; assumption.
Qed.

Lemma spec_raise {A} P (Q : A -> Prop) e : spec_M P Q (raise e).
Proof.
  intros t t' r E. inversion E; subst.
  exists []. rewrite app_nil_r. repeat split; [constructor|discriminate].
Qed.

Lemma spec_tell P (Q : unit -> Prop) ev : P ev -> Q tt -> spec_M P Q (tell ev).
Proof.
  intros HP HQ t t' r E. inversion E; subst.
  exists [ev]. repeat split; [repeat constructor; assumption|].
  intros [] _; assumption.
Qed.

Lemma spec_bind {A B} P (Q : A -> Prop) (R : B -> Prop) (m : M A) (k : A -> M B) :
  spec_M P Q m -> (forall a, Q a -> spec_M P R (k a)) -> spec_M P R (bind m k).
Proof.
  intros Hm Hk t t' r E. unfold bind in E.
  destruct (m t) as [t1 [a|e]] eqn:E1.
  - destruct (Hm _ _ _ E1) as [tn1 [-> [F1 Q1]]].
    destruct (Hk a (Q1 a eq_refl) _ _ _ E) as [tn2 [-> [F2 R2]]].
    exists (tn1 ++ tn2). rewrite app_assoc. repeat split; [apply Forall_app; auto|exact R2].
  - inversion E; subst.
    destruct (Hm _ _ _ E1) as [tn1 [-> [F1 _]]].
    exists tn1. repeat split; [exact F1|discriminate].
Qed.

Lemma spec_weaken {A} (P P' : event -> Prop) (Q Q' : A -> Prop) m :
  spec_M P Q m -> (forall ev, P ev -> P' ev) -> (forall a, Q a -> Q' a) -> spec_M P' Q' m.
Proof.
  intros H HP HQ t t' r E. destruct (H _ _ _ E) as [tn [-> [F R]]].
  exists tn. repeat split; [eapply Forall_impl; eauto|intros a Ha; apply HQ, R, Ha].
Qed.

Lemma spec_foldM {A B} P (I : A -> Prop) (f : A -> B -> M A) (l : list B) acc :
  I acc -> (forall a x, In x l -> I a -> spec_M P I (f a x)) -> spec_M P I (foldM f acc l).
Proof.
  revert acc; induction l as [|x l IH]; intros acc Hacc Hf; simpl.
  - apply spec_ret; exact Hacc.
  - apply spec_bind with (Q := I); [apply Hf; [left; reflexivity|exact Hacc]|].
    intros a Ha. apply IH; [exact Ha|]. intros a' x' Hin. apply Hf. right; exact Hin.
Qed.

Create HintDb specM.
#[local] Hint Resolve spec_ret spec_raise : specM.

(** ** C3: sheet dimensions *)

Lemma paste_dims sheet frame x y :
  img_w (paste sheet frame x y) = img_w sheet /\ img_h (paste sheet frame x y) = img_h sheet.
Proof. split; reflexivity. Qed.

Definition has_dims (w h : nat) (img : image) : Prop := img_w img = w /\ img_h img = h.

Lemma paste_frames_dims P w h sheet frames row col :
  has_dims w h sheet -> spec_M P (has_dims w h) (paste_frames sheet frames row col).
Proof.
  revert sheet col; induction frames as [|fp frames IH]; intros sheet col Hd; simpl.
  - apply spec_ret; exact Hd.
  - apply spec_bind with (Q := fun _ => True).
    + destruct fp as [n [img|]|n ch]; simpl; auto with specM.
    + intros frame _. apply IH. exact Hd.
Qed.

Definition is_print (ev : event) : Prop := match ev with Print _ => True | _ => False end.

Lemma compose_row_dims o ap ad who d w h acc r :
  has_dims w h (fst acc) ->
  spec_M is_print (fun acc' => has_dims w h (fst acc')) (compose_row o ap ad who d acc r).
Proof.
  intros Hd. destruct r as [row [st pn]]. unfold compose_row.
  destruct (String.eqb pn ""); [apply spec_ret; exact Hd|].
  destruct (get_frame_files o _ _ d) as [|f fs].
  - apply spec_bind with (Q := fun _ => True).
    + apply spec_tell; simpl; trivial.
    + intros _ _. apply spec_ret. exact Hd.
  - apply spec_bind with (Q := has_dims w h).
    + apply paste_frames_dims. exact Hd.
    + intros sheet Hs. apply spec_ret. exact Hs.
Qed.

Lemma create_sprite_sheet_dims o cp cd n d mf :
  spec_M is_print
    (fun res => has_dims (mf * FRAME_SIZE) (length ANIM_ORDER * FRAME_SIZE) (fst res))
    (create_sprite_sheet o cp cd n d mf).
Proof.
  unfold create_sprite_sheet. apply spec_foldM; [split; reflexivity|].
  intros a x _ Ha. apply compose_row_dims. exact Ha.
Qed.

Lemma create_enemy_sprite_sheet_dims o ep ed n d mf :
  spec_M is_print
    (fun res => has_dims (mf * FRAME_SIZE) (length (enemy_plan n) * FRAME_SIZE) (fst res))
    (create_enemy_sprite_sheet o ep ed n d mf).
Proof.
  unfold create_enemy_sprite_sheet. apply spec_foldM; [split; reflexivity|].
  intros a x _ Ha. apply compose_row_dims. exact Ha.
Qed.

(** Events of a direction loop: prints, and sheets of the given size. *)
Definition saved_dims (w h : nat) (ev : event) : Prop :=
  match ev with
  | Print _ => True
  | SavePng _ img => has_dims w h img
  | _ => False
  end.

Lemma directions_loop_dims out n w h (create : string -> M (image * anims_meta)) :
  (forall d, spec_M is_print (fun res => has_dims w h (fst res)) (create d)) ->
  spec_M (saved_dims w h) (fun _ => True) (directions_loop out n create).
Proof.
  intros Hc. unfold directions_loop.
  apply spec_foldM; [trivial|]. intros acc d _ _.
  apply spec_bind with (Q := fun _ => True); [apply spec_tell; simpl; trivial|].
  intros _ _.
  apply spec_bind with (Q := fun res => has_dims w h (fst res)).
  - eapply spec_weaken; [apply Hc| |trivial].
    intros [] H; simpl in *; tauto.
  - intros [sheet am] Hs.
    apply spec_bind with (Q := fun _ => True).
    + unfold save_png. destruct (child out (sheet_file n d)) as [[|]|];
        try (destruct (png_encodable sheet)); auto with specM;
        apply spec_tell; simpl; auto.
    + intros _ _. apply spec_bind with (Q := fun _ => True);
        [apply spec_tell; simpl; trivial|].
      intros _ _. apply spec_ret. trivial.
Qed.

(** C3. [process_character] (resp. [process_enemy]) computes [max_frames]
    once and every sheet it saves, in each of the four directions, is
    [max_frames * 64] wide and [row_count * 64] high; the compositor
    returns sheets of exactly that size for every direction. *)
Theorem sheets_share_dimensions (o : path -> list entry -> list entry)
    (out : option entry) (char_path : path) (char_dir : entry)
    (enemy_path : path) (enemy_dir : entry) :
  spec_M (saved_dims (count_max_frames o char_path char_dir (name char_dir) * FRAME_SIZE)
                     (length ANIM_ORDER * FRAME_SIZE))
    (fun _ => True) (process_character o out char_path char_dir)
  /\ spec_M (saved_dims (count_enemy_max_frames o enemy_path enemy_dir (name enemy_dir) * FRAME_SIZE)
                        (length (enemy_plan (name enemy_dir)) * FRAME_SIZE))
       (fun _ => True) (process_enemy o out enemy_path enemy_dir)
  /\ (forall direction mf,
        spec_M is_print
          (fun res => has_dims (mf * FRAME_SIZE) (length ANIM_ORDER * FRAME_SIZE) (fst res))
          (create_sprite_sheet o char_path char_dir (name char_dir) direction mf))
  /\ (forall direction mf,
        spec_M is_print
          (fun res => has_dims (mf * FRAME_SIZE) (length (enemy_plan (name enemy_dir)) * FRAME_SIZE)
                        (fst res))
          (create_enemy_sprite_sheet o enemy_path enemy_dir (name enemy_dir) direction mf)).
Proof.
  split; [|split; [|split]].
  - unfold process_character.
    apply spec_bind with (Q := fun _ => True); [apply spec_tell; simpl; trivial|]. intros ? _.
    apply spec_bind with (Q := fun _ => True); [apply spec_tell; simpl; trivial|]. intros ? _.
    apply spec_bind with (Q := fun _ => True).
    + apply directions_loop_dims. intros d. apply create_sprite_sheet_dims.
    + intros ? _. apply spec_ret. trivial.
  - unfold process_enemy.
    apply spec_bind with (Q := fun _ => True); [apply spec_tell; simpl; trivial|]. intros ? _.
    apply spec_bind with (Q := fun _ => True); [apply spec_tell; simpl; trivial|]. intros ? _.
    apply spec_bind with (Q := fun _ => True).
    + apply directions_loop_dims. intros d. apply create_enemy_sprite_sheet_dims.
    + intros ? _. apply spec_ret. trivial.
  - intros. apply create_sprite_sheet_dims.
  - intros. apply create_enemy_sprite_sheet_dims.
Qed.

(** ** C5: an entity without any frame *)

Lemma spec_max_frames_zero o ap ad plan st pn d :
  spec_max_frames o ap ad plan = 0 -> In (st, pn) plan -> String.eqb pn "" = false ->
  In d DIRECTIONS -> get_frame_files o (ap ++ [pn]) (child ad pn) d = [].
Proof.
  unfold spec_max_frames. intros H0 Hin Hpn Hd.
  assert (Hle : list_max (map (fun '(_, pn) =>
            if String.eqb pn "" then 0
            else first_nonempty_sample o (ap ++ [pn]) (child ad pn)) plan) <= 0) by lia.
  apply list_max_le in Hle. rewrite Forall_map, Forall_forall in Hle.
  specialize (Hle _ Hin). simpl in Hle. rewrite Hpn in Hle.
  unfold first_nonempty_sample in Hle.
  destruct (find _ DIRECTIONS) as [d'|] eqn:F.
  - apply find_some in F as [_ F].
    destruct (get_frame_files o (ap ++ [pn]) (child ad pn) d'); [discriminate|simpl in Hle; lia].
  - pose proof (find_none _ _ F d Hd) as Hn. simpl in Hn.
    destruct (get_frame_files o (ap ++ [pn]) (child ad pn) d); [reflexivity|discriminate].
Qed.

Lemma compose_row_skip o ap ad who d acc row st t :
  compose_row o ap ad who d acc (row, (st, ""%string)) t = (t, Ok acc).
Proof. reflexivity. Qed.

Lemma compose_row_empty o ap ad who d acc row st pn t :
  String.eqb pn "" = false -> get_frame_files o (ap ++ [pn]) (child ad pn) d = [] ->
  compose_row o ap ad who d acc (row, (st, pn)) t
  = (t ++ [Print (MWarnNoFrames who pn d)], Ok acc).
Proof. intros E F. unfold compose_row. rewrite E, F. reflexivity. Qed.

Lemma compose_rows_blank o ap ad who d acc rows t :
  (forall row st pn, In (row, (st, pn)) rows -> String.eqb pn "" = false ->
     get_frame_files o (ap ++ [pn]) (child ad pn) d = []) ->
  exists tn, foldM (compose_row o ap ad who d) acc rows t = (t ++ tn, Ok acc).
Proof.
  revert t; induction rows as [|[row [st pn]] rows IH]; intros t Hr; cbn [foldM].
  - exists []; rewrite app_nil_r; reflexivity.
  - assert (IH' : forall t', exists tn,
               foldM (compose_row o ap ad who d) acc rows t' = (t' ++ tn, Ok acc)).
    { intros t'. apply IH. intros; eapply Hr; [right|]; eassumption. }
    unfold bind at 1.
    destruct (String.eqb pn "") eqn:E.
    + apply String.eqb_eq in E; subst pn. rewrite compose_row_skip. apply IH'.
    + rewrite compose_row_empty by (exact E || exact (Hr row st pn (or_introl eq_refl) E)).
      destruct (IH' (t ++ [Print (MWarnNoFrames who pn d)])) as [tn Htn].
      exists (Print (MWarnNoFrames who pn d) :: tn).
      rewrite Htn, <- app_assoc. reflexivity.
Qed.

Lemma in_enumerate {A} (l : list A) i x : In (i, x) (enumerate l) -> In x l.
Proof. unfold enumerate. apply in_combine_r. Qed.

(** No row of [plan] has frames in any direction. *)
Definition no_frames (o : path -> list entry -> list entry) (ap : path) (ad : option entry)
    (plan : list (string * string)) : Prop :=
  forall st pn d, In (st, pn) plan -> String.eqb pn "" = false -> In d DIRECTIONS ->
    get_frame_files o (ap ++ [pn]) (child ad pn) d = [].

Lemma no_frames_spec_max o ap ad plan : no_frames o ap ad plan -> spec_max_frames o ap ad plan = 0.
Proof.
  intros H. unfold spec_max_frames.
  enough (list_max (map (fun '(_, pn) =>
            if String.eqb pn "" then 0
            else first_nonempty_sample o (ap ++ [pn]) (child ad pn)) plan) <= 0) by lia.
  apply list_max_le. rewrite Forall_map, Forall_forall. intros [st pn] Hin.
  destruct (String.eqb pn "") eqn:E; [lia|].
  unfold first_nonempty_sample.
  destruct (find _ DIRECTIONS) as [d|] eqn:F; [|lia].
  apply find_some in F as [Hd F].
  rewrite (H st pn d Hin E Hd) in F. discriminate.
Qed.

Lemma no_frames_blank_sheet o ap ad who d plan acc t :
  no_frames o ap ad plan -> In d DIRECTIONS ->
  exists tn, foldM (compose_row o ap ad who d) acc (enumerate plan) t = (t ++ tn, Ok acc).
Proof.
  intros H Hd. apply compose_rows_blank.
  intros row st pn Hin E. apply (H st pn d); [eapply in_enumerate; eassumption|exact E|exact Hd].
Qed.

(** The direction loop, when the compositor gives an empty sheet for the
    first direction: [sheet.save] raises. *)
Lemma directions_loop_blank_raises out n (create : string -> M (image * anims_meta)) h t :
  (forall t, exists tn, create "south"%string t = (t ++ tn, Ok (image_new 0 h, []))) ->
  exists t' e, directions_loop out n create t = (t', Raise e)
               /\ In (Print (MCreating "south")) t'.
Proof.
  intros Hc. unfold directions_loop. cbn [foldM DIRECTIONS].
  unfold bind at 1. unfold tell at 1.
  unfold bind at 1.
  destruct (Hc (t ++ [Print (MCreating "south")])) as [tn E1].
  unfold bind at 1. rewrite E1.
  assert (Hin : In (Print (MCreating "south")) ((t ++ [Print (MCreating "south")]) ++ tn)).
  { apply in_or_app; left; apply in_or_app; right; left; reflexivity. }
  unfold save_png.
  destruct (child out (sheet_file n "south")) as [[|]|]; cbn;
    eexists; eexists; split; try reflexivity; exact Hin.
Qed.

Lemma count_max_frames_eq o cp cd n :
  count_max_frames o cp cd n =
  spec_max_frames o (cp ++ ["animations"%string]) (child (Some cd) "animations") (hero_plan n).
Proof.
  change (count_max_frames o cp cd n) with
    (fold_left (fun mf '(_, pn) =>
                  count_row o (cp ++ ["animations"%string]) (child (Some cd) "animations") mf pn)
       (hero_plan n) 0).
  rewrite fold_count_row_spec. lia.
Qed.

Lemma count_enemy_max_frames_eq o ep ed n :
  count_enemy_max_frames o ep ed n =
  spec_max_frames o (ep ++ ["animations"%string]) (child (Some ed) "animations") (enemy_plan n).
Proof. unfold count_enemy_max_frames. rewrite fold_count_row_spec. reflexivity. Qed.

(** C5 (amended). For an entity none of whose rows has frames in any
    direction, [max_frames] is 0, yet nothing treats that as "nothing to
    compose": for every direction the compositor still builds a sheet 0
    pixels wide and [row_count * 64] high with no metadata entry, and the
    entity's processing prints "Creating south sheet...", hands that sheet
    to [sheet.save], and raises (Pillow cannot encode an empty image), which
    aborts the run.  For heroes and for enemies. *)
Theorem no_frames_entity_still_composed (o : path -> list entry -> list entry)
    (out : option entry) (char_path : path) (char_dir : entry)
    (enemy_path : path) (enemy_dir : entry)
    (Hhero : no_frames o (char_path ++ ["animations"%string])
               (child (Some char_dir) "animations") (hero_plan (name char_dir)))
    (Henemy : no_frames o (enemy_path ++ ["animations"%string])
                (child (Some enemy_dir) "animations") (enemy_plan (name enemy_dir))) :
  (count_max_frames o char_path char_dir (name char_dir) = 0
   /\ (forall d t, In d DIRECTIONS -> exists tn,
         create_sprite_sheet o char_path char_dir (name char_dir) d 0 t
         = (t ++ tn, Ok (image_new 0 (length ANIM_ORDER * FRAME_SIZE), [])))
   /\ (forall t, exists t' e,
         process_character o out char_path char_dir t = (t', Raise e)
         /\ In (Print (MCreating "south")) t'))
  /\ (count_enemy_max_frames o enemy_path enemy_dir (name enemy_dir) = 0
   /\ (forall d t, In d DIRECTIONS -> exists tn,
         create_enemy_sprite_sheet o enemy_path enemy_dir (name enemy_dir) d 0 t
         = (t ++ tn, Ok (image_new 0 (length (enemy_plan (name enemy_dir)) * FRAME_SIZE), [])))
   /\ (forall t, exists t' e,
         process_enemy o out enemy_path enemy_dir t = (t', Raise e)
         /\ In (Print (MCreating "south")) t')).
Proof.
  assert (Hc : count_max_frames o char_path char_dir (name char_dir) = 0).
  { rewrite count_max_frames_eq. apply no_frames_spec_max. exact Hhero. }
  assert (He : count_enemy_max_frames o enemy_path enemy_dir (name enemy_dir) = 0).
  { rewrite count_enemy_max_frames_eq. apply no_frames_spec_max. exact Henemy. }
  assert (Cc : forall d t, In d DIRECTIONS -> exists tn,
         create_sprite_sheet o char_path char_dir (name char_dir) d 0 t
         = (t ++ tn, Ok (image_new 0 (length ANIM_ORDER * FRAME_SIZE), []))).
  { intros d t Hd. unfold create_sprite_sheet. apply no_frames_blank_sheet; assumption. }
  assert (Ce : forall d t, In d DIRECTIONS -> exists tn,
         create_enemy_sprite_sheet o enemy_path enemy_dir (name enemy_dir) d 0 t
         = (t ++ tn, Ok (image_new 0 (length (enemy_plan (name enemy_dir)) * FRAME_SIZE), []))).
  { intros d t Hd. unfold create_enemy_sprite_sheet. apply no_frames_blank_sheet; assumption. }
  split; (split; [assumption|split; [assumption|]]); intros t.
  - unfold process_character. cbv zeta. rewrite Hc.
    unfold bind at 1, tell at 1. unfold bind at 1, tell at 1. unfold bind at 1.
    destruct (directions_loop_blank_raises out (name char_dir)
                (fun direction => create_sprite_sheet o char_path char_dir (name char_dir) direction 0)
                (length ANIM_ORDER * FRAME_SIZE)
                ((t ++ [Print (MProcessing (name char_dir))]) ++ [Print (MMaxFrames 0)]))
      as [t' [e [E Hin]]].
    { intros t0. apply Cc. left; reflexivity. }
    rewrite E. exists t', e. split; [reflexivity|exact Hin].
  - unfold process_enemy. cbv zeta. rewrite He.
    unfold bind at 1, tell at 1. unfold bind at 1, tell at 1. unfold bind at 1.
    destruct (directions_loop_blank_raises out (name enemy_dir)
                (fun direction =>
                   create_enemy_sprite_sheet o enemy_path enemy_dir (name enemy_dir) direction 0)
                (length (enemy_plan (name enemy_dir)) * FRAME_SIZE)
                ((t ++ [Print (MProcessingEnemy (name enemy_dir))]) ++ [Print (MMaxFrames 0)]))
      as [t' [e [E Hin]]].
    { intros t0. apply Ce. left; reflexivity. }
    rewrite E. exists t', e. split; [reflexivity|exact Hin].
Qed.

Definition hero_no_frames : entry := Dir "bolt" [Dir "animations" []]%string.

Definition enemy_no_frames : entry := Dir "slime" [Dir "animations" []]%string.

(** C5 (counterexample). A hero whose [animations/] holds nothing: its
    [max_frames] is 0, yet the compositor runs for it (it prints the
    "No frames for bolt/breathing-idle/south" warning) and the run ends
    with an uncaught exception instead of skipping the entity. *)
Lemma no_frames_hero_is_composed :
  count_max_frames list_order ["bolt"%string] hero_no_frames "bolt" = 0
  /\ In (Print (MWarnNoFrames "bolt" "breathing-idle" "south"))
        (fst (run_script list_order (Some (Dir "pixellab" [hero_no_frames]))))
  /\ snd (run_script list_order (Some (Dir "pixellab" [hero_no_frames]))) = 1.
Proof.
  split; [reflexivity|split; [|reflexivity]].
  vm_compute. do 4 right. left. reflexivity.
Qed.

Lemma no_frames_entity_still_composed_witness :
  no_frames list_order ["bolt"; "animations"]%string
    (child (Some hero_no_frames) "animations") (hero_plan (name hero_no_frames))
  /\ no_frames list_order ["enemies"; "slime"; "animations"]%string
       (child (Some enemy_no_frames) "animations") (enemy_plan (name enemy_no_frames))
  /\ count_max_frames list_order ["bolt"%string] hero_no_frames (name hero_no_frames) = 0.
Proof.
  assert (H1 : no_frames list_order ["bolt"; "animations"]%string
    (child (Some hero_no_frames) "animations") (hero_plan (name hero_no_frames)))
    by (intros st pn d _ _ _; reflexivity).
  assert (H2 : no_frames list_order ["enemies"; "slime"; "animations"]%string
       (child (Some enemy_no_frames) "animations") (enemy_plan (name enemy_no_frames)))
    by (intros st pn d _ _ _; reflexivity).
  split; [exact H1|split; [exact H2|]].
  exact (proj1 (proj1 (no_frames_entity_still_composed list_order None ["bolt"%string]
                         hero_no_frames ["enemies"; "slime"]%string enemy_no_frames H1 H2))).
Defined.

(** ** C6: heroes without a special animation *)

Lemma dict_get_set_other {V} (k k' : string) (v : V) d :
  k <> k' -> dict_get k (dict_set k' v d) = dict_get k d.
Proof.
  intros Hne. induction d as [|[k0 v0] d IH]; simpl.
  - destruct (String.eqb_spec k k'); [congruence|reflexivity].
  - destruct (String.eqb_spec k' k0) as [->|Hk0]; simpl.
    + destruct (String.eqb_spec k k0); [congruence|reflexivity].
    + destruct (String.eqb_spec k k0); [reflexivity|exact IH].
Qed.

Lemma compose_row_keeps_other_state o ap ad who d acc row st pn (k : string) :
  k <> st ->
  spec_M is_print (fun acc' => dict_get k (snd acc') = dict_get k (snd acc))
    (compose_row o ap ad who d acc (row, (st, pn))).
Proof.
  intros Hne. unfold compose_row.
  destruct (String.eqb pn ""); [apply spec_ret; reflexivity|].
  destruct (get_frame_files o _ _ d) as [|f fs].
  - apply spec_bind with (Q := fun _ => True); [apply spec_tell; simpl; trivial|].
    intros ? _. apply spec_ret. reflexivity.
  - apply spec_bind with (Q := fun _ => True).
    + eapply spec_weaken;
        [apply (paste_frames_dims is_print (img_w (fst acc)) (img_h (fst acc))); split; reflexivity
        |auto|auto].
    + intros sheet _. apply spec_ret. simpl. apply dict_get_set_other. exact Hne.
Qed.

(** The rows a hero outside [SPECIAL_ANIMS] gets composed from: the
    [special] row (index 3) is absent, the others keep their index. *)
Definition hero_rows_without_special : list (nat * (string * string)) :=
  [(0, ("idle", "breathing-idle")); (1, ("run", "running-6-frames"));
   (2, ("jump", "two-footed-jump")); (4, ("attack", "cross-punch"))]%string.

(** C6. For a hero absent from [SPECIAL_ANIMS], in every direction the
    compositor is exactly the composition of rows 0, 1, 2 and 4 (at their
    original indices) on a canvas [5 * 64] high: the [special] row pastes
    nothing and records no metadata entry; [count_max_frames] likewise only
    samples the other four rows. *)
Theorem hero_without_special_skips_row (o : path -> list entry -> list entry)
    (char_path : path) (char_dir : entry) (char_name : string)
    (Hn : in_keys char_name SPECIAL_ANIMS = false) :
  (forall direction mf,
     create_sprite_sheet o char_path char_dir char_name direction mf
     = foldM (compose_row o (char_path ++ ["animations"%string])
                (child (Some char_dir) "animations") char_name direction)
         (image_new (mf * FRAME_SIZE) (length ANIM_ORDER * FRAME_SIZE), [])
         hero_rows_without_special)
  /\ (forall direction mf,
        spec_M is_print
          (fun res => dict_get "special" (snd res) = None
                      /\ img_h (fst res) = length ANIM_ORDER * FRAME_SIZE)
          (create_sprite_sheet o char_path char_dir char_name direction mf))
  /\ count_max_frames o char_path char_dir char_name
     = fold_left (count_row o (char_path ++ ["animations"%string])
                    (child (Some char_dir) "animations"))
         ["breathing-idle"; "running-6-frames"; "two-footed-jump"; "cross-punch"]%string 0.
Proof.
  assert (Hs : dict_get_or char_name SPECIAL_ANIMS ""%string = ""%string).
  { unfold in_keys in Hn. unfold dict_get_or.
    destruct (dict_get char_name SPECIAL_ANIMS); [discriminate|reflexivity]. }
  assert (Heq : forall direction mf,
     create_sprite_sheet o char_path char_dir char_name direction mf
     = foldM (compose_row o (char_path ++ ["animations"%string])
                (child (Some char_dir) "animations") char_name direction)
         (image_new (mf * FRAME_SIZE) (length ANIM_ORDER * FRAME_SIZE), [])
         hero_rows_without_special).
  { intros direction mf. unfold create_sprite_sheet, hero_plan, resolve_hero.
    cbn [map ANIM_ORDER]. rewrite Hs. reflexivity. }
  split; [exact Heq|split].
  - intros direction mf. rewrite Heq.
    apply spec_weaken with
      (P := is_print)
      (Q := fun acc => dict_get "special" (snd acc) = None
                       /\ has_dims (mf * FRAME_SIZE) (length ANIM_ORDER * FRAME_SIZE) (fst acc));
      [|auto|intros a [H1 [_ H2]]; split; assumption].
    apply spec_foldM.
    + split; [reflexivity|split; reflexivity].
    + intros acc [row [st pn]] Hin [Hsp Hd].
      assert (Hne : "special"%string <> st).
      { simpl in Hin. intuition congruence. }
      intros t t' r E.
      destruct (compose_row_keeps_other_state o (char_path ++ ["animations"%string])
                  (child (Some char_dir) "animations") char_name direction acc row st pn
                  "special" Hne _ _ _ E) as [tn [-> [F1 Q1]]].
      destruct (compose_row_dims o (char_path ++ ["animations"%string])
                  (child (Some char_dir) "animations") char_name direction
                  (mf * FRAME_SIZE) (length ANIM_ORDER * FRAME_SIZE) acc (row, (st, pn)) Hd
                  _ _ _ E) as [tn' [Etn [_ Q2]]].
      exists tn. split; [reflexivity|split; [exact F1|]].
      intros a Ha. split; [rewrite (Q1 a Ha); exact Hsp|exact (Q2 a Ha)].
  - unfold count_max_frames, resolve_hero. cbn [fold_left ANIM_ORDER]. rewrite Hs.
    reflexivity.
Qed.

Lemma hero_without_special_skips_row_witness :
  in_keys "knight" SPECIAL_ANIMS = false
  /\ count_max_frames list_order ["knight"%string] (Dir "knight" []) "knight"
     = fold_left (count_row list_order ["knight"; "animations"]%string None)
         ["breathing-idle"; "running-6-frames"; "two-footed-jump"; "cross-punch"]%string 0.
Proof.
  split; [reflexivity|].
  exact (proj2 (proj2 (hero_without_special_skips_row list_order ["knight"%string]
                         (Dir "knight" []) "knight" eq_refl))).
Defined.

(** ** Which events each part of the script emits *)

Definition is_warning (ev : event) : Prop :=
  match ev with Print (MWarnNoFrames _ _ _) => True | _ => False end.

(** Events of a direction loop. *)
Definition loop_event (ev : event) : Prop :=
  match ev with
  | Print (MWarnNoFrames _ _ _) | Print (MCreating _) | Print (MSaved _) | SavePng _ _ => True
  | _ => False
  end.

Lemma compose_row_warnings o ap ad who d acc r :
  spec_M is_warning (fun _ => True) (compose_row o ap ad who d acc r).
Proof.
  destruct r as [row [st pn]]. unfold compose_row.
  destruct (String.eqb pn ""); [apply spec_ret; trivial|].
  destruct (get_frame_files o _ _ d) as [|f fs].
  - apply spec_bind with (Q := fun _ => True); [apply spec_tell; simpl; trivial|].
    intros ? _. apply spec_ret. trivial.
  - apply spec_bind with (Q := fun _ => True).
    + eapply spec_weaken;
        [apply (paste_frames_dims is_warning (img_w (fst acc)) (img_h (fst acc))); split; reflexivity
        |auto|auto].
    + intros ? _. apply spec_ret. trivial.
Qed.

Lemma create_sprite_sheet_warnings o cp cd n d mf :
  spec_M is_warning (fun _ => True) (create_sprite_sheet o cp cd n d mf).
Proof.
  unfold create_sprite_sheet. apply spec_foldM; [trivial|].
  intros. apply compose_row_warnings.
Qed.

Lemma create_enemy_sprite_sheet_warnings o ep ed n d mf :
  spec_M is_warning (fun _ => True) (create_enemy_sprite_sheet o ep ed n d mf).
Proof.
  unfold create_enemy_sprite_sheet. apply spec_foldM; [trivial|].
  intros. apply compose_row_warnings.
Qed.

Lemma save_png_events out f img : spec_M loop_event (fun _ => True) (save_png out f img).
Proof.
  unfold save_png. destruct (child out f) as [[|]|];
    try destruct (png_encodable img); auto with specM; apply spec_tell; simpl; auto.
Qed.

Lemma directions_loop_events out n (create : string -> M (image * anims_meta)) :
  (forall d, spec_M is_warning (fun _ => True) (create d)) ->
  spec_M loop_event (fun _ => True) (directions_loop out n create).
Proof.
  intros Hc. unfold directions_loop. apply spec_foldM; [trivial|]. intros acc d _ _.
  apply spec_bind with (Q := fun _ => True); [apply spec_tell; simpl; trivial|]. intros ? _.
  apply spec_bind with (Q := fun _ => True).
  - eapply spec_weaken; [apply Hc| |auto]. intros [[]| | |]; simpl; tauto.
  - intros [sheet am] _.
    apply spec_bind with (Q := fun _ => True); [apply save_png_events|]. intros ? _.
    apply spec_bind with (Q := fun _ => True); [apply spec_tell; simpl; trivial|]. intros ? _.
    apply spec_ret. trivial.
Qed.

Definition is_character_b (m : entity_meta) : bool :=
  match m with CharacterMeta _ _ _ _ => true | EnemyMeta _ _ _ _ => false end.

Definition is_character (m : entity_meta) : Prop :=
  match m with CharacterMeta _ _ _ _ => True | EnemyMeta _ _ _ _ => False end.

Definition character_event (n : string) (ev : event) : Prop :=
  match ev with
  | Print (MProcessing n') => n' = n
  | Print (MMaxFrames _) => True
  | _ => loop_event ev
  end.

Definition enemy_event (ev : event) : Prop :=
  match ev with
  | Print (MProcessingEnemy _) | Print (MMaxFrames _) => True
  | _ => loop_event ev
  end.

Lemma process_character_events o out cp cd :
  spec_M (character_event (name cd)) is_character (process_character o out cp cd).
Proof.
  unfold process_character.
  apply spec_bind with (Q := fun _ => True); [apply spec_tell; simpl; trivial|]. intros ? _.
  apply spec_bind with (Q := fun _ => True); [apply spec_tell; simpl; trivial|]. intros ? _.
  apply spec_bind with (Q := fun _ => True).
  - eapply spec_weaken; [apply directions_loop_events| |auto].
    + intros d. apply create_sprite_sheet_warnings.
    + intros [[]| | |]; simpl; tauto.
  - intros ? _. apply spec_ret. simpl. trivial.
Qed.

Lemma process_enemy_events o out ep ed :
  spec_M enemy_event (fun m => ~ is_character m) (process_enemy o out ep ed).
Proof.
  unfold process_enemy.
  apply spec_bind with (Q := fun _ => True); [apply spec_tell; simpl; trivial|]. intros ? _.
  apply spec_bind with (Q := fun _ => True); [apply spec_tell; simpl; trivial|]. intros ? _.
  apply spec_bind with (Q := fun _ => True).
  - eapply spec_weaken; [apply directions_loop_events| |auto].
    + intros d. apply create_enemy_sprite_sheet_warnings.
    + intros [[]| | |]; simpl; tauto.
  - intros ? _. apply spec_ret. simpl. tauto.
Qed.

(** ** Sorting lemmas *)

Lemma insert_entry_perm e l : Permutation (insert_entry e l) (e :: l).
Proof.
  induction l as [|x l IH]; simpl; [reflexivity|].
  destruct (name_compare e x); try reflexivity.
  rewrite IH. apply perm_swap.
Qed.

Lemma sorted_entries_perm l : Permutation (sorted_entries l) l.
Proof.
  induction l as [|x l IH]; simpl; [reflexivity|].
  rewrite insert_entry_perm, IH. reflexivity.
Qed.

Lemma in_sorted_entries e l : In e (sorted_entries l) <-> In e l.
Proof.
  split; apply Permutation_in; [|symmetry]; apply sorted_entries_perm.
Qed.

(** ** Sorting is canonical on directories with distinct names *)

Definition lt_name (a b : entry) : Prop := String_as_OT.lt (name a) (name b).

Lemma lt_name_trans a b c : lt_name a b -> lt_name b c -> lt_name a c.
Proof. unfold lt_name. apply String_as_OT.lt_strorder. Qed.

Lemma lt_name_irrefl a : ~ lt_name a a.
Proof. unfold lt_name. apply String_as_OT.lt_strorder. Qed.

Lemma name_compare_spec a b :
  CompareSpec (name a = name b) (lt_name a b) (lt_name b a) (name_compare a b).
Proof. unfold name_compare, lt_name. apply String_as_OT.compare_spec. Qed.

Lemma insert_entry_sorted e l :
  StronglySorted lt_name l -> ~ In (name e) (map name l) ->
  StronglySorted lt_name (insert_entry e l).
Proof.
  induction l as [|x l IH]; simpl; intros Hs Hn.
  - repeat constructor.
  - inversion Hs as [|? ? Hl Hf]; subst.
    destruct (name_compare_spec e x) as [Heq|Hlt|Hgt].
    + exfalso. apply Hn. left. symmetry. exact Heq.
    + constructor; [exact Hs|]. constructor; [exact Hlt|].
      eapply Forall_impl; [|exact Hf]. intros y Hy. eapply lt_name_trans; eassumption.
    + constructor; [apply IH; [exact Hl|tauto]|].
      eapply Permutation_Forall; [symmetry; apply insert_entry_perm|].
      constructor; assumption.
Qed.

Lemma nodup_names_NoDup l : nodup_names l = true -> NoDup l.
Proof.
  induction l as [|x l IH]; simpl; [constructor|].
  intros H. apply andb_true_iff in H as [Hx Hl]. constructor; [|apply IH, Hl].
  intros Hin. apply negb_true_iff in Hx. rewrite (proj2 (existsb_exists _ _)) in Hx;
    [discriminate|]. exists x. split; [exact Hin|apply String.eqb_refl].
Qed.

Lemma sorted_entries_sorted l :
  NoDup (map name l) -> StronglySorted lt_name (sorted_entries l).
Proof.
  induction l as [|x l IH]; simpl; intros Hd; [constructor|].
  inversion Hd as [|? ? Hx Hl]; subst.
  apply insert_entry_sorted; [apply IH, Hl|].
  intros Hin. apply Hx. apply (Permutation_in _ (Permutation_map name (sorted_entries_perm l))).
  exact Hin.
Qed.

Lemma sorted_unique l1 l2 :
  StronglySorted lt_name l1 -> StronglySorted lt_name l2 -> Permutation l1 l2 -> l1 = l2.
Proof.
  revert l2; induction l1 as [|a l1 IH]; intros l2 S1 S2 P.
  - symmetry. apply Permutation_nil, P.
  - destruct l2 as [|b l2]; [apply Permutation_sym, Permutation_nil in P; discriminate|].
    inversion S1 as [|? ? S1' F1]; inversion S2 as [|? ? S2' F2]; subst.
    assert (Ha : In a (b :: l2)) by (eapply Permutation_in; [exact P|left; reflexivity]).
    assert (Hb : In b (a :: l1)) by (eapply Permutation_in; [symmetry; exact P|left; reflexivity]).
    destruct Ha as [<-|Ha].
    + f_equal. apply IH; [exact S1'|exact S2'|]. eapply Permutation_cons_inv; exact P.
    + destruct Hb as [->|Hb].
      * f_equal. apply IH; [exact S1'|exact S2'|]. eapply Permutation_cons_inv; exact P.
      * rewrite Forall_forall in F1, F2. exfalso. apply (lt_name_irrefl a).
        eapply lt_name_trans; [apply F1, Hb|apply F2, Ha].
Qed.

Lemma sorted_entries_canonical l l' :
  NoDup (map name l) -> Permutation l l' -> sorted_entries l = sorted_entries l'.
Proof.
  intros Hd P. apply sorted_unique.
  - apply sorted_entries_sorted, Hd.
  - apply sorted_entries_sorted. eapply Permutation_NoDup; [|exact Hd].
    apply Permutation_map, P.
  - rewrite !sorted_entries_perm. exact P.
Qed.

Lemma StronglySorted_filter {A} (R : A -> A -> Prop) (f : A -> bool) l :
  StronglySorted R l -> StronglySorted R (filter f l).
Proof.
  induction l as [|x l IH]; simpl; intros S; [constructor|].
  inversion S as [|? ? S' F]; subst. destruct (f x); [|apply IH, S'].
  constructor; [apply IH, S'|]. rewrite Forall_forall in *.
  intros y Hy. apply filter_In in Hy. apply F, Hy.
Qed.

Lemma Permutation_filter_ {A} (f : A -> bool) l l' :
  Permutation l l' -> Permutation (filter f l) (filter f l').
Proof.
  induction 1; simpl; try reflexivity.
  - destruct (f x); [constructor|]; assumption.
  - destruct (f x), (f y); try constructor; reflexivity.
  - etransitivity; eassumption.
Qed.

Lemma NoDup_map_filter {A B} (g : A -> B) (f : A -> bool) l :
  NoDup (map g l) -> NoDup (map g (filter f l)).
Proof.
  induction l as [|x l IH]; simpl; intros Hd; [constructor|].
  inversion Hd as [|? ? Hx Hl]; subst. destruct (f x); simpl; [|apply IH, Hl].
  constructor; [|apply IH, Hl]. intros Hin. apply Hx.
  apply in_map_iff in Hin as [y [Hy1 Hy2]]. rewrite <- Hy1. apply in_map.
  apply filter_In in Hy2. apply Hy2.
Qed.

(** [sorted(filter(p, it))] is [filter(p, sorted(it))]. *)
Lemma sorted_entries_filter f l :
  NoDup (map name l) -> sorted_entries (filter f l) = filter f (sorted_entries l).
Proof.
  intros Hd. apply sorted_unique.
  - apply sorted_entries_sorted, NoDup_map_filter, Hd.
  - apply StronglySorted_filter, sorted_entries_sorted, Hd.
  - rewrite sorted_entries_perm. apply Permutation_filter_. symmetry. apply sorted_entries_perm.
Qed.

(** ** C10: the skip set *)

Definition dir_children (e : entry) : list entry :=
  match e with Dir _ ch => ch | File _ _ => [] end.

(** [n] names a top-level directory outside [skip_dirs] that has an
    [animations] entry. *)
Definition hero_candidate (rt : entry) (n : string) : Prop :=
  in_list n skip_dirs = false
  /\ exists e, In e (dir_children rt) /\ name e = n /\ is_dir e = true
               /\ exists_ (child (Some e) "animations") = true.

Definition doc_ok (rt : entry) (doc : metadata_doc) : Prop :=
  forall k v, In (k, v) doc ->
    if is_character_b v then hero_candidate rt k else in_keys k ENEMY_ANIM_ORDER = true.

Definition main_event (rt : entry) (ev : event) : Prop :=
  match ev with
  | Print (MProcessing n) => hero_candidate rt n
  | WriteJson _ doc => doc_ok rt doc
  | _ => True
  end.

Lemma in_dict_set {V} (k k0 : string) (v v0 : V) d :
  In (k, v) (dict_set k0 v0 d) -> (k = k0 /\ v = v0) \/ In (k, v) d.
Proof.
  induction d as [|[k1 v1] d IH]; simpl.
  - intros [H|[]]. inversion H; subst; left; split; reflexivity.
  - destruct (String.eqb_spec k0 k1) as [->|Hne]; simpl.
    + intros [H|H]; [inversion H; subst; left; split; reflexivity|right; right; exact H].
    + intros [H|H]; [right; left; exact H|].
      destruct (IH H) as [?|?]; [left; assumption|right; right; assumption].
Qed.

Lemma doc_ok_set rt doc k m :
  doc_ok rt doc ->
  (if is_character_b m then hero_candidate rt k else in_keys k ENEMY_ANIM_ORDER = true) ->
  doc_ok rt (dict_set k m doc).
Proof.
  intros Hd Hm k' v' Hin. apply in_dict_set in Hin as [[-> ->]|Hin]; [exact Hm|].
  exact (Hd _ _ Hin).
Qed.

Lemma in_list_skip_sheets : in_list "sheets" skip_dirs = true.
Proof. reflexivity. Qed.

Lemma mkdir_sheets_children rt :
  spec_M (fun ev => ev = Mkdir ["sheets"%string])
    (fun rt' => forall e, In e (dir_children rt') -> In e (dir_children rt) \/ name e = "sheets"%string)
    (mkdir_sheets rt).
Proof.
  unfold mkdir_sheets. destruct rt as [n d|r ch]; [apply spec_raise|].
  destruct (find_child "sheets" ch) as [[|]|].
  - apply spec_raise.
  - apply spec_ret. intros e He. left. exact He.
  - apply spec_bind with (Q := fun _ => True); [apply spec_tell; reflexivity|]. intros ? _.
    apply spec_ret. simpl. intros e He. apply in_app_or in He as [He|[<-|[]]];
      [left; exact He|right; reflexivity].
Qed.

Lemma iterdir_members o (Ho : forall p l, Permutation (o p l) l) P p d :
  spec_M P (fun es => forall e, In e es -> In e (dir_children d)) (iterdir o p d).
Proof.
  unfold iterdir. destruct d as [n x|n ch]; [apply spec_raise|].
  apply spec_ret. intros e He. simpl. eapply Permutation_in; [apply Ho|exact He].
Qed.

Lemma toml_example_events rt doc : spec_M (main_event rt) (fun _ => True) (toml_example doc).
Proof.
  unfold toml_example.
  apply spec_bind with (Q := fun _ => True); [apply spec_tell; simpl; trivial|]. intros ? _.
  destruct (dict_get "bolt" doc) as [[c fs mf dirs|c fs mf dirs]|]; [| |apply spec_ret; trivial];
    (destruct (dict_get "east" dirs); [apply spec_tell; simpl; trivial|apply spec_raise]).
Qed.

Lemma main_events o (Ho : forall p l, Permutation (o p l) l) rt :
  spec_M (main_event rt) (fun _ => True) (main o (Some rt)).
Proof.
  unfold main, process_all, process_enemies, finish.
  apply spec_bind with
    (Q := fun rt' => forall e, In e (dir_children rt') ->
                               In e (dir_children rt) \/ name e = "sheets"%string).
  { eapply spec_weaken; [apply mkdir_sheets_children| |auto]. intros ev ->. exact I. }
  intros rt' Hrt'.
  apply spec_bind with (Q := fun es => forall e, In e es -> In e (dir_children rt'));
    [apply iterdir_members; exact Ho|].
  intros es Hes.
  apply spec_bind with (Q := doc_ok rt).
  { apply spec_foldM; [intros k v []|]. intros acc x Hx Hacc. unfold hero_step.
    destruct (is_dir x) eqn:Hd, (in_list (name x) skip_dirs) eqn:Hs; cbn [andb negb];
      try (apply spec_ret; exact Hacc).
    destruct (exists_ (child (Some x) "animations")) eqn:Ha; [|apply spec_ret; exact Hacc].
    assert (Hc : hero_candidate rt (name x)).
    { split; [exact Hs|]. exists x. repeat split; try assumption.
      apply in_sorted_entries, Hes, Hrt' in Hx as [Hx|Hx]; [exact Hx|].
      rewrite Hx in Hs. discriminate. }
    apply spec_bind with (Q := is_character).
    - eapply spec_weaken; [apply process_character_events| |auto].
      intros ev H. destruct ev as [m| | |]; [destruct m| | |]; simpl in *;
        try (subst; assumption); try exact I; contradiction.
    - intros m Hm. apply spec_ret. apply doc_ok_set; [exact Hacc|].
      destruct m; simpl in *; [exact Hc|contradiction]. }
  intros doc Hdoc.
  apply spec_bind with (Q := doc_ok rt).
  { destruct (child (Some rt') "enemies") as [ed|]; [|apply spec_ret; exact Hdoc].
    apply spec_bind with (Q := fun _ => True); [apply spec_tell; simpl; trivial|]. intros ? _.
    apply spec_bind with (Q := fun es' => forall e, In e es' -> In e (dir_children ed));
      [apply iterdir_members; exact Ho|].
    intros es' _.
    apply spec_foldM; [exact Hdoc|]. intros acc x _ Hacc. unfold enemy_step.
    destruct (is_dir x && in_keys (name x) ENEMY_ANIM_ORDER) eqn:Hc;
      [|apply spec_ret; exact Hacc].
    apply andb_true_iff in Hc as [_ Hk].
    apply spec_bind with (Q := fun m => ~ is_character m).
    - eapply spec_weaken; [apply process_enemy_events| |auto].
      intros ev H. destruct ev as [m| | |]; [destruct m| | |]; simpl in *;
        try exact I; contradiction.
    - intros m Hm. apply spec_ret. apply doc_ok_set; [exact Hacc|].
      destruct m; simpl in *; [exfalso; apply Hm; exact I|exact Hk]. }
  intros doc' Hdoc'.
  apply spec_bind with (Q := fun _ => True).
  { unfold write_json. destruct (child (child (Some rt) "sheets") "metadata.json") as [[|]|];
      [apply spec_tell; simpl; trivial|apply spec_raise|apply spec_tell; simpl; trivial]. }
  intros ? _.
  apply spec_bind with (Q := fun _ => True); [apply spec_tell; simpl; trivial|]. intros ? _.
  apply toml_example_events.
Qed.

Lemma skip_not_enemy n : in_list n skip_dirs = true -> in_keys n ENEMY_ANIM_ORDER = false.
Proof.
  unfold in_list. intros H. apply existsb_exists in H as [x [Hx Hn]].
  apply String.eqb_eq in Hn; subst x.
  simpl in Hx. destruct Hx as [<-|[<-|[<-|[<-|[]]]]]; reflexivity.
Qed.

(** C10. In the trace of a run, "Processing n..." (a hero being processed)
    only appears for a top-level directory [n] outside [skip_dirs] that has
    an [animations] entry, and every hero entry of the written metadata
    document has such a name (enemy entries are keys of
    [ENEMY_ANIM_ORDER]); in particular a name of [skip_dirs] is never
    processed as a hero and never a key of the document. *)
Theorem skip_dirs_never_heroes (o : path -> list entry -> list entry)
    (Ho : forall p l, Permutation (o p l) l) (rt : entry) :
  (forall n, In (Print (MProcessing n)) (fst (run_script o (Some rt))) -> hero_candidate rt n)
  /\ (forall p doc, In (WriteJson p doc) (fst (run_script o (Some rt))) -> doc_ok rt doc)
  /\ (forall n, in_list n skip_dirs = true ->
        ~ In (Print (MProcessing n)) (fst (run_script o (Some rt)))
        /\ forall p doc v, In (WriteJson p doc) (fst (run_script o (Some rt))) -> ~ In (n, v) doc).
Proof.
  assert (H : Forall (main_event rt) (fst (run_script o (Some rt)))).
  { unfold run_script. destruct (main o (Some rt) []) as [tr r] eqn:E.
    destruct (main_events o Ho rt _ _ _ E) as [tn [-> [F _]]].
    destruct r; exact F. }
  rewrite Forall_forall in H.
  assert (H1 : forall n, In (Print (MProcessing n)) (fst (run_script o (Some rt))) ->
                         hero_candidate rt n).
  { intros n Hin. exact (H _ Hin). }
  assert (H2 : forall p doc, In (WriteJson p doc) (fst (run_script o (Some rt))) -> doc_ok rt doc).
  { intros p doc Hin. exact (H _ Hin). }
  split; [exact H1|split; [exact H2|]].
  intros n Hn. split.
  - intros Hin. destruct (H1 n Hin) as [Hs _]. congruence.
  - intros p doc v Hin Hkv. specialize (H2 p doc Hin n v Hkv).
    destruct (is_character_b v).
    + destruct H2 as [Hs _]. congruence.
    + rewrite skip_not_enemy in H2 by exact Hn. discriminate.
Qed.

Lemma list_order_perm : forall p l, Permutation (list_order p l) l.
Proof. intros p l. apply Permutation_refl. Qed.

Definition objects_with_animations : entry :=
  Dir "pixellab" [Dir "objects" [Dir "animations" []]; hero_a]%string.

Lemma skip_dirs_never_heroes_witness :
  (forall p l, Permutation (list_order p l) l)
  /\ ~ In (Print (MProcessing "objects")) (fst (run_script list_order (Some objects_with_animations))).
Proof.
  split; [exact list_order_perm|].
  exact (proj1 (proj2 (proj2 (skip_dirs_never_heroes list_order list_order_perm
                                 objects_with_animations)) "objects"%string eq_refl)).
Defined.

(** ** Equalities of [M] computations *)

Lemma bind_ret {A B} (a : A) (k : A -> M B) : bind (ret a) k = k a.
Proof. extensionality t. reflexivity. Qed.

Lemma bind_ext {A B} (m1 m2 : M A) (k1 k2 : A -> M B) :
  m1 = m2 -> (forall a, k1 a = k2 a) -> bind m1 k1 = bind m2 k2.
Proof. intros -> Hk. f_equal. extensionality a. apply Hk. Qed.

(** Two continuations that agree on the results [m] can produce. *)
Lemma bind_ext_spec {A B} P (Q : A -> Prop) (m : M A) (k1 k2 : A -> M B) :
  spec_M P Q m -> (forall a, Q a -> k1 a = k2 a) -> bind m k1 = bind m k2.
Proof.
  intros Hm Hk. extensionality t. unfold bind.
  destruct (m t) as [t' [a|e]] eqn:E; [|reflexivity].
  destruct (Hm _ _ _ E) as [tn [_ [_ HQ]]]. rewrite (Hk a (HQ a eq_refl)). reflexivity.
Qed.

Lemma foldM_ext {A B} (f g : A -> B -> M A) acc l :
  (forall a x, In x l -> f a x = g a x) -> foldM f acc l = foldM g acc l.
Proof.
  revert acc; induction l as [|x l IH]; intros acc H; simpl; [reflexivity|].
  apply bind_ext; [apply H; left; reflexivity|].
  intros a. apply IH. intros a' x' Hx. apply H. right. exact Hx.
Qed.

Lemma fold_left_ext' {A B} (f g : A -> B -> A) l acc :
  (forall a x, In x l -> f a x = g a x) -> fold_left f l acc = fold_left g l acc.
Proof.
  revert acc; induction l as [|x l IH]; intros acc H; simpl; [reflexivity|].
  rewrite H by (left; reflexivity). apply IH. intros a x' Hx. apply H. right. exact Hx.
Qed.

(** ** Well-formed trees *)

Lemma nodup_names_spec l : nodup_names l = true <-> NoDup l.
Proof.
  split; [apply nodup_names_NoDup|].
  induction l as [|x l IH]; simpl; intros Hd; [reflexivity|].
  inversion Hd as [|? ? Hx Hl]; subst. rewrite (IH Hl), andb_true_r.
  apply negb_true_iff. apply not_true_is_false. intros H.
  apply existsb_exists in H as [y [Hy Hxy]]. apply String.eqb_eq in Hxy. subst y.
  exact (Hx Hy).
Qed.

Lemma wfb_Dir n ch : wfb (Dir n ch) = nodup_names (map name ch) && forallb wfb ch.
Proof.
  simpl. f_equal.
Qed.

Lemma wfb_Dir_iff n ch :
  wfb (Dir n ch) = true <-> NoDup (map name ch) /\ forall x, In x ch -> wfb x = true.
Proof.
  rewrite wfb_Dir, andb_true_iff, nodup_names_spec, forallb_forall. reflexivity.
Qed.

Definition wf_opt (p : option entry) : Prop :=
  match p with Some e => wfb e = true | None => True end.

Lemma find_child_in c ch e : find_child c ch = Some e -> In e ch /\ name e = c.
Proof.
  unfold find_child. intros H. split; [eapply find_some; exact H|].
  apply find_some in H as [_ H]. apply String.eqb_eq, H.
Qed.

Lemma wf_child p c : wf_opt p -> wf_opt (child p c).
Proof.
  destruct p as [[n d|n ch]|]; cbn [child wf_opt]; trivial. intros Hw.
  apply wfb_Dir_iff in Hw as [_ Hw].
  destruct (find_child c ch) as [e|] eqn:E; cbn [wf_opt]; trivial.
  apply Hw, (find_child_in _ _ _ E).
Qed.

Lemma perm_NoDup_names (o : path -> list entry -> list entry)
    (Ho : forall p l, Permutation (o p l) l) p ch :
  NoDup (map name ch) -> NoDup (map name (o p ch)).
Proof.
  intros Hd. eapply Permutation_NoDup; [|exact Hd]. apply Permutation_map. symmetry. apply Ho.
Qed.

(** The sorted listing of a directory does not depend on the enumeration order. *)
Lemma sorted_listing_indep (o1 o2 : path -> list entry -> list entry)
    (H1 : forall p l, Permutation (o1 p l) l) (H2 : forall p l, Permutation (o2 p l) l)
    (f : entry -> bool) p ch :
  NoDup (map name ch) ->
  sorted_entries (filter f (o1 p ch)) = sorted_entries (filter f (o2 p ch)).
Proof.
  intros Hd. apply sorted_entries_canonical.
  - apply NoDup_map_filter, (perm_NoDup_names o1 H1), Hd.
  - apply Permutation_filter_. rewrite H1, H2. reflexivity.
Qed.

Lemma mkdir_sheets_wf rt :
  wfb rt = true -> spec_M (fun _ => True) (fun rt' => wfb rt' = true) (mkdir_sheets rt).
Proof.
  intros Hw. unfold mkdir_sheets. destruct rt as [n d|r ch]; [apply spec_raise|].
  destruct (find_child "sheets" ch) as [[|]|] eqn:E; [apply spec_raise|apply spec_ret, Hw|].
  apply spec_bind with (Q := fun _ => True); [apply spec_tell; trivial|]. intros ? _.
  apply spec_ret. apply wfb_Dir_iff in Hw as [Hd Hw]. apply wfb_Dir_iff. split.
  - rewrite map_app. eapply Permutation_NoDup; [apply Permutation_cons_append|].
    constructor; [|exact Hd]. intros Hin. apply in_map_iff in Hin as [x [Hx Hin]].
    pose proof (find_none _ _ E x Hin) as Hf. cbv beta in Hf. rewrite Hx in Hf. discriminate.
  - intros x Hx. apply in_app_or in Hx as [Hx|[<-|[]]]; [apply Hw, Hx|reflexivity].
Qed.

(** ** C8: the enumeration order of directories does not matter *)

Section Indep.

Variables o1 o2 : path -> list entry -> list entry.
Hypothesis H1 : forall p l, Permutation (o1 p l) l.
Hypothesis H2 : forall p l, Permutation (o2 p l) l.

Lemma get_frame_files_indep ap anim d :
  wf_opt anim -> get_frame_files o1 ap anim d = get_frame_files o2 ap anim d.
Proof.
  intros Hw. unfold get_frame_files.
  pose proof (wf_child anim d Hw) as Hc.
  destruct (child anim d) as [[|n ch]|]; try reflexivity.
  apply wfb_Dir_iff in Hc as [Hd _]. apply sorted_listing_indep; assumption.
Qed.

Lemma count_row_indep ap ad m pn :
  wf_opt ad -> count_row o1 ap ad m pn = count_row o2 ap ad m pn.
Proof.
  intros Hw. unfold count_row. destruct (String.eqb pn ""); [reflexivity|].
  pose proof (wf_child ad pn Hw) as Hc.
  destruct (exists_ (child ad pn)); [|reflexivity].
  generalize m. induction DIRECTIONS as [|d ds IH]; intros m'; simpl; [reflexivity|].
  rewrite (get_frame_files_indep _ _ d Hc).
  destruct (get_frame_files o2 _ _ d); [apply IH|reflexivity].
Qed.

Lemma count_max_frames_indep cp cd n :
  wfb cd = true -> count_max_frames o1 cp cd n = count_max_frames o2 cp cd n.
Proof.
  intros Hw. unfold count_max_frames. apply fold_left_ext'.
  intros a [s pl] _. apply count_row_indep, (wf_child (Some cd)), Hw.
Qed.

Lemma count_enemy_max_frames_indep ep ed n :
  wfb ed = true -> count_enemy_max_frames o1 ep ed n = count_enemy_max_frames o2 ep ed n.
Proof.
  intros Hw. unfold count_enemy_max_frames. apply fold_left_ext'.
  intros a [s pl] _. apply count_row_indep, (wf_child (Some ed)), Hw.
Qed.

Lemma compose_row_indep ap ad who d acc r :
  wf_opt ad -> compose_row o1 ap ad who d acc r = compose_row o2 ap ad who d acc r.
Proof.
  intros Hw. unfold compose_row. destruct r as [row [st pn]].
  destruct (String.eqb pn ""); [reflexivity|].
  rewrite (get_frame_files_indep _ _ d (wf_child ad pn Hw)). reflexivity.
Qed.

Lemma create_sprite_sheet_indep cp cd n d mf :
  wfb cd = true -> create_sprite_sheet o1 cp cd n d mf = create_sprite_sheet o2 cp cd n d mf.
Proof.
  intros Hw. unfold create_sprite_sheet. apply foldM_ext. intros a x _.
  apply compose_row_indep, (wf_child (Some cd)), Hw.
Qed.

Lemma create_enemy_sprite_sheet_indep ep ed n d mf :
  wfb ed = true ->
  create_enemy_sprite_sheet o1 ep ed n d mf = create_enemy_sprite_sheet o2 ep ed n d mf.
Proof.
  intros Hw. unfold create_enemy_sprite_sheet. apply foldM_ext. intros a x _.
  apply compose_row_indep, (wf_child (Some ed)), Hw.
Qed.

Lemma directions_loop_ext out n (c1 c2 : string -> M (image * anims_meta)) :
  (forall d, c1 d = c2 d) -> directions_loop out n c1 = directions_loop out n c2.
Proof. intros H. replace c1 with c2; [reflexivity|]. extensionality d. symmetry. apply H. Qed.

Lemma process_character_indep out cp cd :
  wfb cd = true -> process_character o1 out cp cd = process_character o2 out cp cd.
Proof.
  intros Hw. unfold process_character. rewrite (count_max_frames_indep cp cd _ Hw).
  erewrite directions_loop_ext; [reflexivity|].
  intros d. apply create_sprite_sheet_indep, Hw.
Qed.

Lemma process_enemy_indep out ep ed :
  wfb ed = true -> process_enemy o1 out ep ed = process_enemy o2 out ep ed.
Proof.
  intros Hw. unfold process_enemy. rewrite (count_enemy_max_frames_indep ep ed _ Hw).
  erewrite directions_loop_ext; [reflexivity|].
  intros d. apply create_enemy_sprite_sheet_indep, Hw.
Qed.

Lemma hero_step_indep out acc x :
  wfb x = true -> hero_step o1 out acc x = hero_step o2 out acc x.
Proof. intros Hw. unfold hero_step. rewrite (process_character_indep out _ _ Hw). reflexivity. Qed.

Lemma enemy_step_indep out acc x :
  wfb x = true -> enemy_step o1 out acc x = enemy_step o2 out acc x.
Proof. intros Hw. unfold enemy_step. rewrite (process_enemy_indep out _ _ Hw). reflexivity. Qed.

(** A directory loop [for x in sorted(d.iterdir()): step(acc, x)]. *)
Lemma dir_loop_indep {A B} p d (f1 f2 : A -> entry -> M A) acc (K : M A -> M B) :
  wfb d = true -> (forall a x, In x (dir_children d) -> f1 a x = f2 a x) ->
  bind (iterdir o1 p d) (fun es => K (foldM f1 acc (sorted_entries es)))
  = bind (iterdir o2 p d) (fun es => K (foldM f2 acc (sorted_entries es))).
Proof.
  intros Hw Hf. destruct d as [n x|n ch]; [reflexivity|].
  unfold iterdir. rewrite !bind_ret.
  apply wfb_Dir_iff in Hw as [Hd _].
  assert (E := sorted_listing_indep o1 o2 H1 H2 (fun _ => true) p ch Hd).
  rewrite !filter_true in E. rewrite E. f_equal.
  apply foldM_ext. intros a x Hx. apply Hf.
  apply (proj1 (in_sorted_entries _ _)) in Hx. simpl.
  eapply Permutation_in; [apply H2|exact Hx].
Qed.

Lemma dir_loop_bind_indep {A B} p d (f1 f2 : A -> entry -> M A) acc (k1 k2 : A -> M B) :
  wfb d = true -> (forall a x, In x (dir_children d) -> f1 a x = f2 a x) ->
  (forall a, k1 a = k2 a) ->
  bind (iterdir o1 p d) (fun es => bind (foldM f1 acc (sorted_entries es)) k1)
  = bind (iterdir o2 p d) (fun es => bind (foldM f2 acc (sorted_entries es)) k2).
Proof.
  intros Hw Hf Hk. replace k1 with k2 by (extensionality a; symmetry; apply Hk).
  apply (dir_loop_indep _ _ _ _ _ (fun m => bind m k2)); assumption.
Qed.

Lemma process_enemies_indep out rt' acc :
  wfb rt' = true -> process_enemies o1 out rt' acc = process_enemies o2 out rt' acc.
Proof.
  intros Hw. unfold process_enemies.
  pose proof (wf_child (Some rt') "enemies" Hw) as He.
  destruct (child (Some rt') "enemies") as [ed|]; [|reflexivity].
  apply bind_ext; [reflexivity|]. intros _.
  apply (dir_loop_indep _ _ _ _ _ (fun m => m)); [exact He|].
  intros a x Hx. apply enemy_step_indep.
  destruct ed as [|n ch]; [contradiction|]. apply wfb_Dir_iff in He as [_ He]. apply He, Hx.
Qed.

Lemma process_all_indep out rt' :
  wfb rt' = true -> process_all o1 out rt' = process_all o2 out rt'.
Proof.
  intros Hw. unfold process_all. apply dir_loop_bind_indep; [exact Hw| |].
  - intros a x Hx. apply hero_step_indep.
    destruct rt' as [|n ch]; [contradiction|]. apply wfb_Dir_iff in Hw as [_ Hw]. apply Hw, Hx.
  - intros a. rewrite (process_enemies_indep out rt' a Hw). reflexivity.
Qed.

Lemma main_indep rt : wfb rt = true -> main o1 (Some rt) = main o2 (Some rt).
Proof.
  intros Hw. unfold main.
  apply (bind_ext_spec (fun _ => True) (fun rt' => wfb rt' = true)).
  - apply mkdir_sheets_wf, Hw.
  - intros rt' Hw'. apply process_all_indep, Hw'.
Qed.

End Indep.

(** C8. The run is a function of the asset tree alone: whatever order the
    operating system lists directories in, the trace of the run (every
    printed line, every sheet image written and its file name, the metadata
    document written) and the exit status are the same, because every
    listing that is used goes through [sorted] (heroes in sorted order, then
    enemies in sorted order, frame files in sorted order).  The tree is one
    a file system can hold: names within a directory are distinct. *)
Theorem run_independent_of_listing_order (o1 o2 : path -> list entry -> list entry)
    (H1 : forall p l, Permutation (o1 p l) l) (H2 : forall p l, Permutation (o2 p l) l)
    (rt : entry) (Hw : wfb rt = true) :
  run_script o1 (Some rt) = run_script o2 (Some rt).
Proof. unfold run_script. rewrite (main_indep o1 o2 H1 H2 rt Hw). reflexivity. Qed.

Lemma rev_order_perm : forall p l, Permutation (rev_order p l) l.
Proof. intros p l. symmetry. apply Permutation_rev. Qed.

Lemma run_independent_of_listing_order_witness :
  wfb objects_with_animations = true
  /\ run_script list_order (Some objects_with_animations)
     = run_script rev_order (Some objects_with_animations).
Proof.
  assert (Hw : wfb objects_with_animations = true) by (vm_compute; reflexivity).
  split; [exact Hw|].
  exact (run_independent_of_listing_order list_order rev_order list_order_perm rev_order_perm
           objects_with_animations Hw).
Defined.

(** ** Removing entries the run ignores *)

(** The directory [d] without its entry named [n]. *)
Definition remove_entry (n : string) (d : entry) : entry :=
  match d with
  | Dir r ch => Dir r (filter (fun e => negb (String.eqb (name e) n)) ch)
  | File _ _ => d
  end.

(** The root with the entry [n] of its [enemies] directory removed. *)
Definition upd_enemies (n : string) (e : entry) : entry :=
  if String.eqb (name e) "enemies" then remove_entry n e else e.

Definition remove_enemy (n : string) (rt : entry) : entry :=
  match rt with
  | Dir r ch => Dir r (map (upd_enemies n) ch)
  | File _ _ => rt
  end.

Lemma name_remove_entry n e : name (remove_entry n e) = name e.
Proof. destruct e; reflexivity. Qed.

Lemma name_upd_enemies n e : name (upd_enemies n e) = name e.
Proof. unfold upd_enemies. destruct (String.eqb (name e) "enemies"); [apply name_remove_entry|reflexivity]. Qed.

Lemma bind_assoc {A B C} (m : M A) (f : A -> M B) (g : B -> M C) :
  bind (bind m f) g = bind m (fun a => bind (f a) g).
Proof. extensionality t. unfold bind. destruct (m t) as [t' [a|e]]; reflexivity. Qed.



Lemma find_child_map (u : entry -> entry) c ch :
  (forall e, name (u e) = name e) ->
  find_child c (map u ch) = option_map u (find_child c ch).
Proof.
  intros Hu. unfold find_child. induction ch as [|x ch IH]; simpl; [reflexivity|].
  rewrite Hu. destruct (String.eqb (name x) c); [reflexivity|exact IH].
Qed.


Lemma foldM_filter_noop {A} (f : A -> entry -> M A) (p : entry -> bool) acc l :
  (forall x a, In x l -> p x = false -> f a x = ret a) ->
  foldM f acc (filter p l) = foldM f acc l.
Proof.
  revert acc; induction l as [|x l IH]; intros acc H; simpl; [reflexivity|].
  destruct (p x) eqn:Ep; simpl.
  - apply bind_ext; [reflexivity|]. intros a. apply IH.
    intros y a' Hy Hp. apply H; [right; exact Hy|exact Hp].
  - rewrite (H x acc (or_introl eq_refl) Ep), bind_ret. apply IH.
    intros y a' Hy Hp. apply H; [right; exact Hy|exact Hp].
Qed.

Lemma foldM_map_noop {A} (f : A -> entry -> M A) (u : entry -> entry) acc l :
  (forall x a, In x l -> f a (u x) = f a x) ->
  foldM f acc (map u l) = foldM f acc l.
Proof.
  revert acc; induction l as [|x l IH]; intros acc H; simpl; [reflexivity|].
  rewrite H by (left; reflexivity). apply bind_ext; [reflexivity|].
  intros a. apply IH. intros; apply H; right; assumption.
Qed.

Lemma sorted_entries_map (u : entry -> entry) l :
  (forall e, name (u e) = name e) ->
  sorted_entries (map u l) = map u (sorted_entries l).
Proof.
  intros Hu. induction l as [|x l IH]; simpl; [reflexivity|]. rewrite IH.
  generalize (sorted_entries l) as s. intros s.
  induction s as [|y s IHs]; simpl; [reflexivity|].
  unfold name_compare at 1. rewrite !Hu. fold (name_compare x y).
  destruct (name_compare x y); simpl; try reflexivity. rewrite IHs. reflexivity.
Qed.

Section Ignored.

Variable o : path -> list entry -> list entry.
Hypothesis Ho : forall p l, Permutation (o p l) l.

Lemma sorted_listing (o' : path -> list entry -> list entry) (Ho' : forall p l, Permutation (o' p l) l) p ch :
  NoDup (map name ch) -> sorted_entries (o' p ch) = sorted_entries ch.
Proof. intros Hd. symmetry. apply sorted_entries_canonical; [exact Hd|symmetry; apply Ho']. Qed.

(** A loop over [sorted(d.iterdir())] whose step ignores the entries
    [f] rejects runs the same on [d] as on [d] without them. *)
Lemma dir_loop_filter {A B} p r ch (f : entry -> bool) (g : A -> entry -> M A) acc
    (K : M A -> M B) :
  NoDup (map name ch) -> (forall x a, In x ch -> f x = false -> g a x = ret a) ->
  bind (iterdir o p (Dir r (filter f ch))) (fun es => K (foldM g acc (sorted_entries es)))
  = bind (iterdir o p (Dir r ch)) (fun es => K (foldM g acc (sorted_entries es))).
Proof.
  intros Hd Hg. unfold iterdir. rewrite !bind_ret.
  rewrite (sorted_listing o Ho p _ (NoDup_map_filter _ _ _ Hd)), (sorted_listing o Ho p _ Hd).
  rewrite (sorted_entries_filter _ _ Hd). f_equal. apply foldM_filter_noop.
  intros x a Hx. apply Hg. apply (proj1 (in_sorted_entries _ _)), Hx.
Qed.

Lemma dir_loop_map {A B} p r ch (u : entry -> entry) (g : A -> entry -> M A) acc
    (K : M A -> M B) :
  NoDup (map name ch) -> (forall e, name (u e) = name e) ->
  (forall x a, In x ch -> g a (u x) = g a x) ->
  bind (iterdir o p (Dir r (map u ch))) (fun es => K (foldM g acc (sorted_entries es)))
  = bind (iterdir o p (Dir r ch)) (fun es => K (foldM g acc (sorted_entries es))).
Proof.
  intros Hd Hu Hg. unfold iterdir. rewrite !bind_ret.
  assert (Hd' : NoDup (map name (map u ch))).
  { rewrite map_map. erewrite map_ext; [exact Hd|]. exact Hu. }
  rewrite (sorted_listing o Ho p _ Hd'), (sorted_listing o Ho p _ Hd).
  rewrite (sorted_entries_map _ _ Hu). f_equal. apply foldM_map_noop.
  intros x a Hx. apply Hg. apply (proj1 (in_sorted_entries _ _)), Hx.
Qed.






Lemma upd_enemies_other n e : String.eqb (name e) "enemies" = false -> upd_enemies n e = e.
Proof. unfold upd_enemies. intros H. rewrite H. reflexivity. Qed.

Lemma child_remove_enemy_other rt c n :
  String.eqb c "enemies" = false -> child (Some (remove_enemy n rt)) c = child (Some rt) c.
Proof.
  intros Hc. destruct rt as [f x|r ch]; [reflexivity|]. cbn [remove_enemy child].
  rewrite (find_child_map _ _ _ (name_upd_enemies n)).
  destruct (find_child c ch) as [e|] eqn:E; [|reflexivity]. cbn [option_map]. f_equal.
  apply upd_enemies_other. apply find_child_in in E as [_ ->]. exact Hc.
Qed.

Lemma child_remove_enemy_enemies rt n :
  child (Some (remove_enemy n rt)) "enemies" = option_map (remove_entry n) (child (Some rt) "enemies").
Proof.
  destruct rt as [f x|r ch]; [reflexivity|]. cbn [remove_enemy child].
  rewrite (find_child_map _ _ _ (name_upd_enemies n)).
  destruct (find_child "enemies" ch) as [e|] eqn:E; [|reflexivity]. cbn [option_map]. f_equal.
  unfold upd_enemies. apply find_child_in in E as [_ ->]. reflexivity.
Qed.

Lemma mkdir_sheets_remove_enemy n rt :
  mkdir_sheets (remove_enemy n rt) = bind (mkdir_sheets rt) (fun rt' => ret (remove_enemy n rt')).
Proof.
  destruct rt as [f d|r ch]; [extensionality t; reflexivity|].
  unfold mkdir_sheets. cbn [remove_enemy].
  rewrite (find_child_map _ _ _ (name_upd_enemies n)).
  destruct (find_child "sheets" ch) as [e|] eqn:E; cbn [option_map].
  - rewrite upd_enemies_other by (apply find_child_in in E as [_ ->]; reflexivity).
    destruct e; extensionality t; reflexivity.
  - extensionality t. unfold bind, tell, ret. cbn [remove_enemy]. rewrite map_app. reflexivity.
Qed.

(** Removing the entry [n] of [enemies/], where [n] is not a key of
    [ENEMY_ANIM_ORDER], leaves the run unchanged. *)
Lemma main_remove_enemy n rt :
  wfb rt = true -> in_keys n ENEMY_ANIM_ORDER = false ->
  main o (Some (remove_enemy n rt)) = main o (Some rt).
Proof.
  intros Hw Hn. unfold main.
  rewrite (child_remove_enemy_other rt "sheets" n eq_refl), mkdir_sheets_remove_enemy, bind_assoc.
  apply (bind_ext_spec _ _ _ _ _ (mkdir_sheets_wf rt Hw)).
  intros rt' Hw'. rewrite bind_ret.
  destruct rt' as [f x|r ch']; [reflexivity|].
  set (out := child (Some rt) "sheets").
  assert (Hen : forall a, process_enemies o out (remove_enemy n (Dir r ch')) a
                          = process_enemies o out (Dir r ch') a).
  { intros a. unfold process_enemies. rewrite child_remove_enemy_enemies.
    pose proof (wf_child (Some (Dir r ch')) "enemies" Hw') as He.
    destruct (child (Some (Dir r ch')) "enemies") as [ed|]; [|reflexivity]. cbn [option_map].
    apply bind_ext; [reflexivity|]. intros _.
    destruct ed as [f x|re che]; [reflexivity|]. cbn [remove_entry].
    apply wfb_Dir_iff in He as [Hde _].
    apply (dir_loop_filter ["enemies"%string] re che _ (enemy_step o out) a (fun m => m));
      [exact Hde|].
    intros x a' _ Hp. apply negb_false_iff, String.eqb_eq in Hp.
    unfold enemy_step. rewrite Hp, Hn, andb_false_r. reflexivity. }
  apply wfb_Dir_iff in Hw' as [Hd' _].
  transitivity
    (bind (iterdir o [] (Dir r (map (upd_enemies n) ch')))
       (fun es => bind (foldM (hero_step o out) [] (sorted_entries es))
                    (fun all => bind (process_enemies o out (Dir r ch') all) (finish out)))).
  { unfold process_all. apply bind_ext; [reflexivity|]. intros es.
    apply bind_ext; [reflexivity|]. intros all. rewrite Hen. reflexivity. }
  apply (dir_loop_map [] r ch' (upd_enemies n) (hero_step o out) []
           (fun m => bind m (fun all => bind (process_enemies o out (Dir r ch') all) (finish out))));
    [exact Hd'|apply name_upd_enemies|].
  intros x a _. unfold upd_enemies.
  destruct (String.eqb (name x) "enemies") eqn:E; [|reflexivity].
  apply String.eqb_eq in E. unfold hero_step. rewrite name_remove_entry, E.
  assert (Hk : in_list "enemies" skip_dirs = true) by reflexivity.
  rewrite Hk. cbn [negb]. rewrite !andb_false_r. reflexivity.
Qed.

End Ignored.










(** C7. An entry [n] of [enemies/] whose name is not a key of
    [ENEMY_ANIM_ORDER] is ignored, whatever it contains: the run on the tree
    (trace of prints, sheets written, metadata document written, exit
    status) is exactly the run on the same tree with [enemies/n] removed, so
    it yields no sheet, no metadata entry and no failure. *)
Theorem unknown_enemy_ignored (o : path -> list entry -> list entry)
    (Ho : forall p l, Permutation (o p l) l) (rt : entry) (n : string)
    (Hw : wfb rt = true) (Hn : in_keys n ENEMY_ANIM_ORDER = false) :
  run_script o (Some rt) = run_script o (Some (remove_enemy n rt)).
Proof. unfold run_script. rewrite (main_remove_enemy o Ho n rt Hw Hn). reflexivity. Qed.

(** An enemy [goblin] with the same animations tree as [hero_a]. *)
Definition root_with_goblin : entry :=
  Dir "pixellab" [hero_a; Dir "enemies" [Dir "goblin" (dir_children hero_a)]]%string.

Lemma unknown_enemy_ignored_witness :
  wfb root_with_goblin = true /\ in_keys "goblin" ENEMY_ANIM_ORDER = false
  /\ run_script list_order (Some root_with_goblin)
     = run_script list_order (Some (remove_enemy "goblin" root_with_goblin)).
Proof.
  assert (Hw : wfb root_with_goblin = true) by (vm_compute; reflexivity).
  assert (Hn : in_keys "goblin" ENEMY_ANIM_ORDER = false) by reflexivity.
  split; [exact Hw|]. split; [exact Hn|].
  exact (unknown_enemy_ignored list_order list_order_perm root_with_goblin "goblin" Hw Hn).
Defined.

(** ** C4: the layout of a row *)

(** A decoded frame fits in a cell ([frame pixel dimensions are trusted to
    not exceed the cell size]). *)
Definition fits (e : entry) : bool :=
  match e with
  | File _ (Some fr) => (img_w fr <=? FRAME_SIZE) && (img_h fr <=? FRAME_SIZE)
  | _ => true
  end.

(** The pixel at [(dx, dy)] of cell [k] once frame [k] of [fs] (if any) has
    been pasted top-left-anchored over [under]. *)
Definition over (fs : list entry) (k dx dy : nat) (under : rgba) : rgba :=
  match nth_error fs k with
  | Some (File _ (Some fr)) =>
      if (dx <? img_w fr) && (dy <? img_h fr) then img_px fr dx dy else under
  | _ => under
  end.

(** The expected pixel of cell [k] of a row showing the frames [fs] on a
    transparent background. *)
Definition frame_px (fs : list entry) (k dx dy : nat) : rgba := over fs k dx dy transparent.

(** The FrameSequence of a row: none when the row has no source name. *)
Definition row_frames (o : path -> list entry -> list entry) (ap : path) (ad : option entry)
    (d pn : string) : list entry :=
  if String.eqb pn "" then [] else get_frame_files o (ap ++ [pn]) (child ad pn) d.

(** The metadata entry a row should get. *)
Definition row_meta (row : nat) (pn : string) (fs : list entry) : option anim_meta :=
  match fs with [] => None | _ => Some (AnimMeta row (length fs) pn) end.

Definition px_at (img : image) (c dx r dy : nat) : rgba :=
  img_px img (c * FRAME_SIZE + dx) (r * FRAME_SIZE + dy).

Ltac cmp_cases :=
  repeat match goal with
         | |- context [?a =? ?b] => destruct (Nat.eqb_spec a b)
         | |- context [?a <=? ?b] => destruct (Nat.leb_spec a b)
         | |- context [?a <? ?b] => destruct (Nat.ltb_spec a b)
         end; cbn [andb].

Lemma paste_cell sheet fr col row c dx r dy :
  img_w fr <= FRAME_SIZE -> img_h fr <= FRAME_SIZE -> dx < FRAME_SIZE -> dy < FRAME_SIZE ->
  c * FRAME_SIZE + dx < img_w sheet -> r * FRAME_SIZE + dy < img_h sheet ->
  px_at (paste sheet fr (col * FRAME_SIZE) (row * FRAME_SIZE)) c dx r dy =
  if (c =? col) && (r =? row) && (dx <? img_w fr) && (dy <? img_h fr)
  then img_px fr dx dy else px_at sheet c dx r dy.
Proof.
  unfold px_at, paste, FRAME_SIZE. cbn [img_px img_w img_h]. intros.
  cmp_cases; try (exfalso; lia); try reflexivity. f_equal; lia.
Qed.

Lemma paste_frames_cells sheet fs row col t t' sheet' :
  forallb fits fs = true ->
  paste_frames sheet fs row col t = (t', Ok sheet') ->
  img_w sheet' = img_w sheet /\ img_h sheet' = img_h sheet /\
  forall c dx r dy, dx < FRAME_SIZE -> dy < FRAME_SIZE ->
    c * FRAME_SIZE + dx < img_w sheet -> r * FRAME_SIZE + dy < img_h sheet ->
    px_at sheet' c dx r dy =
    if (r =? row) && (col <=? c) then over fs (c - col) dx dy (px_at sheet c dx r dy)
    else px_at sheet c dx r dy.
Proof.
  revert sheet col t. induction fs as [|fp fs IH]; intros sheet col t Hf E.
  - cbn in E. inversion E; subst. split; [reflexivity|split; [reflexivity|]].
    intros c dx r dy _ _ _ _. unfold over. rewrite nth_error_nil.
    destruct ((r =? row) && (col <=? c)); reflexivity.
  - cbn [forallb] in Hf. apply andb_true_iff in Hf as [Hfp Hf].
    cbn [paste_frames] in E. unfold bind in E.
    destruct fp as [fn [fr|]|dn dch]; cbn in E; try discriminate.
    cbn in Hfp. apply andb_true_iff in Hfp as [Hw Hh].
    apply Nat.leb_le in Hw, Hh.
    destruct (IH _ _ _ Hf E) as [Ew [Eh Hpx]]. cbn [img_w img_h paste] in Ew, Eh.
    split; [exact Ew|split; [exact Eh|]].
    intros c dx r dy Hdx Hdy Hi Hj.
    rewrite (Hpx c dx r dy Hdx Hdy Hi Hj).
    rewrite (paste_cell sheet fr col row c dx r dy Hw Hh Hdx Hdy Hi Hj).
    destruct (Nat.lt_trichotomy c col) as [Hc|[->|Hc]].
    + cmp_cases; try (exfalso; lia); reflexivity.
    + rewrite Nat.sub_diag. unfold over. cbn [nth_error]. cmp_cases; try (exfalso; lia); reflexivity.
    + replace (c - col) with (S (c - S col)) by lia. unfold over. cbn [nth_error].
      cmp_cases; try (exfalso; lia); reflexivity.
Qed.

Lemma compose_row_cells o ap ad who d acc row st pn t t' acc' :
  forallb fits (row_frames o ap ad d pn) = true ->
  compose_row o ap ad who d acc (row, (st, pn)) t = (t', Ok acc') ->
  img_w (fst acc') = img_w (fst acc) /\ img_h (fst acc') = img_h (fst acc) /\
  (forall c dx r dy, dx < FRAME_SIZE -> dy < FRAME_SIZE ->
     c * FRAME_SIZE + dx < img_w (fst acc) -> r * FRAME_SIZE + dy < img_h (fst acc) ->
     px_at (fst acc') c dx r dy =
     if r =? row then over (row_frames o ap ad d pn) c dx dy (px_at (fst acc) c dx r dy)
     else px_at (fst acc) c dx r dy) /\
  snd acc' = match row_meta row pn (row_frames o ap ad d pn) with
             | Some m => dict_set st m (snd acc)
             | None => snd acc
             end.
Proof.
  unfold row_frames. intros Hf E. unfold compose_row in E. cbv beta iota zeta in E.
  destruct (String.eqb pn "").
  - cbv [ret] in E. inversion E; subst. split; [reflexivity|split; [reflexivity|split; [|reflexivity]]].
    intros c dx r dy _ _ _ _. unfold over. rewrite nth_error_nil. destruct (r =? row); reflexivity.
  - destruct (get_frame_files o (ap ++ [pn]) (child ad pn) d) as [|f fs] eqn:Eg.
    + cbv [bind tell ret] in E. inversion E; subst.
      split; [reflexivity|split; [reflexivity|split; [|reflexivity]]].
      intros c dx r dy _ _ _ _. unfold over. rewrite nth_error_nil. destruct (r =? row); reflexivity.
    + unfold bind in E. destruct (paste_frames (fst acc) (f :: fs) row 0 t) as [t1 [sheet|e]] eqn:Ep;
        cbv [ret] in E; inversion E; subst.
      destruct (paste_frames_cells _ _ _ _ _ _ _ Hf Ep) as [Ew [Eh Hpx]].
      split; [exact Ew|split; [exact Eh|split; [|reflexivity]]].
      intros c dx r dy Hdx Hdy Hi Hj. cbn [fst]. rewrite (Hpx c dx r dy Hdx Hdy Hi Hj).
      rewrite Nat.sub_0_r. cmp_cases; try (exfalso; lia); reflexivity.
Qed.

Lemma dict_get_set_same {V} (k : string) (v : V) d : dict_get k (dict_set k v d) = Some v.
Proof.
  induction d as [|[k0 v0] d IH]; simpl; [rewrite String.eqb_refl; reflexivity|].
  destruct (String.eqb_spec k k0) as [->|Hk]; simpl.
  - rewrite String.eqb_refl. reflexivity.
  - apply String.eqb_neq in Hk. rewrite Hk. exact IH.
Qed.

Lemma find_all_false {A} (f : A -> bool) l :
  (forall x, In x l -> f x = false) -> find f l = None.
Proof.
  induction l as [|x l IH]; simpl; intros H; [reflexivity|].
  rewrite (H x (or_introl eq_refl)). apply IH. intros y Hy. apply H. right. exact Hy.
Qed.

Lemma find_fst_none {A} (rows : list (nat * A)) r :
  ~ In r (map fst rows) -> find (fun x => fst x =? r) rows = None.
Proof.
  intros Hr. apply find_all_false. intros x Hx. apply Nat.eqb_neq. intros <-.
  apply Hr, in_map, Hx.
Qed.

Lemma find_state_none {A} (rows : list (A * (string * string))) st :
  ~ In st (map (fun x => fst (snd x)) rows) ->
  find (fun x => String.eqb (fst (snd x)) st) rows = None.
Proof.
  intros Hs. apply find_all_false. intros x Hx. apply String.eqb_neq. intros <-.
  apply Hs, (in_map (fun x => fst (snd x))), Hx.
Qed.

Lemma fold_rows_cells o ap ad who d rows acc t t' acc' :
  (forall x, In x rows -> forallb fits (row_frames o ap ad d (snd (snd x))) = true) ->
  NoDup (map fst rows) -> NoDup (map (fun x => fst (snd x)) rows) ->
  foldM (compose_row o ap ad who d) acc rows t = (t', Ok acc') ->
  img_w (fst acc') = img_w (fst acc) /\ img_h (fst acc') = img_h (fst acc) /\
  (forall c dx r dy, dx < FRAME_SIZE -> dy < FRAME_SIZE ->
     c * FRAME_SIZE + dx < img_w (fst acc) -> r * FRAME_SIZE + dy < img_h (fst acc) ->
     px_at (fst acc') c dx r dy =
     match find (fun x => fst x =? r) rows with
     | Some (_, (_, pn)) => over (row_frames o ap ad d pn) c dx dy (px_at (fst acc) c dx r dy)
     | None => px_at (fst acc) c dx r dy
     end) /\
  (forall st', dict_get st' (snd acc') =
     match find (fun x => String.eqb (fst (snd x)) st') rows with
     | Some (row, (_, pn)) =>
         match row_meta row pn (row_frames o ap ad d pn) with
         | Some m => Some m
         | None => dict_get st' (snd acc)
         end
     | None => dict_get st' (snd acc)
     end).
Proof.
  revert acc t. induction rows as [|[row [st pn]] rows IH]; intros acc t Hf Hr Hs E.
  - cbn in E. inversion E; subst. repeat split; reflexivity.
  - cbn [foldM] in E. unfold bind in E.
    destruct (compose_row o ap ad who d acc (row, (st, pn)) t) as [t1 [acc1|e]] eqn:E1;
      [|inversion E].
    cbn [map fst snd] in Hr, Hs. inversion Hr as [|? ? Hr1 Hr2]; inversion Hs as [|? ? Hs1 Hs2]; subst.
    pose proof (Hf (row, (st, pn)) (or_introl eq_refl)) as Hf1. cbn [snd] in Hf1.
    destruct (compose_row_cells o ap ad who d acc row st pn t t1 acc1 Hf1 E1)
      as [Ew1 [Eh1 [Hpx1 Hm1]]].
    destruct (IH acc1 t1 (fun x Hx => Hf x (or_intror Hx)) Hr2 Hs2 E) as [Ew [Eh [Hpx Hm]]].
    split; [congruence|split; [congruence|split]].
    + intros c dx r dy Hdx Hdy Hi Hj.
      rewrite (Hpx c dx r dy Hdx Hdy ltac:(congruence) ltac:(congruence)).
      rewrite (Hpx1 c dx r dy Hdx Hdy Hi Hj). cbn [find fst].
      destruct (Nat.eqb_spec row r) as [<-|Hne].
      * rewrite (find_fst_none _ _ Hr1), Nat.eqb_refl. reflexivity.
      * assert (E2 : (r =? row) = false) by (apply Nat.eqb_neq; congruence).
        rewrite E2. reflexivity.
    + intros st'. rewrite Hm. cbn [find fst snd].
      destruct (String.eqb_spec st st') as [<-|Hne].
      * rewrite (find_state_none _ _ Hs1), Hm1.
        destruct (row_meta row pn (row_frames o ap ad d pn)); [apply dict_get_set_same|reflexivity].
      * assert (Hg : dict_get st' (snd acc1) = dict_get st' (snd acc)).
        { rewrite Hm1. destruct (row_meta row pn (row_frames o ap ad d pn));
            [apply dict_get_set_other; congruence|reflexivity]. }
        rewrite Hg. reflexivity.
Qed.

Lemma map_fst_enumerate {A} (l : list A) k :
  map fst (combine (seq k (length l)) l) = seq k (length l).
Proof.
  revert k; induction l as [|x l IH]; intros k; simpl; [reflexivity|]. rewrite IH. reflexivity.
Qed.

Lemma map_state_enumerate (l : list (string * string)) k :
  map (fun x => fst (snd x)) (combine (seq k (length l)) l) = map fst l.
Proof.
  revert k; induction l as [|x l IH]; intros k; simpl; [reflexivity|]. rewrite IH. reflexivity.
Qed.

Lemma in_enumerate_gen {A} (l : list A) k x : In x (combine (seq k (length l)) l) -> In (snd x) l.
Proof. destruct x as [i y]. intros H. apply in_combine_r in H. exact H. Qed.

Lemma enumerate_find_row {A} (l : list A) k r :
  k <= r ->
  find (fun x => fst x =? r) (combine (seq k (length l)) l) =
  match nth_error l (r - k) with Some y => Some (r, y) | None => None end.
Proof.
  revert k; induction l as [|y l IH]; intros k Hk; cbn [length seq combine find fst].
  - destruct (r - k); reflexivity.
  - destruct (Nat.eqb_spec k r) as [->|Hne].
    + rewrite Nat.sub_diag. reflexivity.
    + rewrite IH by lia. replace (r - k) with (S (r - S k)) by lia. reflexivity.
Qed.

Lemma enumerate_find_state (plan : list (string * string)) k row st pn :
  NoDup (map fst plan) -> nth_error plan row = Some (st, pn) ->
  find (fun x => String.eqb (fst (snd x)) st) (combine (seq k (length plan)) plan)
  = Some (k + row, (st, pn)).
Proof.
  revert k row; induction plan as [|[s p] plan IH]; intros k row Hd Hn;
    [rewrite nth_error_nil in Hn; discriminate|].
  cbn [length seq combine find fst snd]. inversion Hd as [|? ? Hs Hd']; subst.
  destruct row as [|row]; cbn in Hn.
  - inversion Hn; subst. rewrite String.eqb_refl, Nat.add_0_r. reflexivity.
  - assert (Hne : String.eqb s st = false).
    { apply String.eqb_neq. intros ->. apply Hs.
      exact (in_map fst _ _ (nth_error_In _ _ Hn)). }
    rewrite Hne, (IH (S k) row Hd' Hn). f_equal. f_equal. lia.
Qed.

(** Every frame on the sheet of direction [d] fits in a cell: the
    FrameSequence of every row of [plan] in that direction. *)
Definition frames_fit (o : path -> list entry -> list entry) (ap : path) (ad : option entry)
    (d : string) (plan : list (string * string)) : bool :=
  forallb (fun x => forallb fits (row_frames o ap ad d (snd x))) plan.

(** What C4 says of one composed sheet of an entity with RowPlan [plan]:
    for every row [row] of the plan, with FrameSequence [fs] of length N,
    - the metadata entry of the row's state is [{row, N, source}] when
      N >= 1, and there is none when N = 0;
    - cell [c] of the row (for every column [c < max_frames] of the sheet)
      holds frame [c] of [fs] pasted top-left-anchored with its own pixels
      (alpha included) and is transparent around it; cells [c >= N] are
      transparent. *)
Definition layout_ok (o : path -> list entry -> list entry) (ap : path) (ad : option entry)
    (d : string) (mf : nat) (plan : list (string * string)) (r : res (image * anims_meta)) : Prop :=
  match r with
  | Ok (img, meta) =>
      forall row st pn, nth_error plan row = Some (st, pn) ->
        dict_get st meta = row_meta row pn (row_frames o ap ad d pn)
        /\ forall c dx dy, c < mf -> dx < FRAME_SIZE -> dy < FRAME_SIZE ->
             px_at img c dx row dy = frame_px (row_frames o ap ad d pn) c dx dy
  | Raise _ => True
  end.

Lemma layout_generic o ap ad who d mf plan t :
  frames_fit o ap ad d plan = true -> NoDup (map fst plan) ->
  layout_ok o ap ad d mf plan
    (snd (foldM (compose_row o ap ad who d)
            (image_new (mf * FRAME_SIZE) (length plan * FRAME_SIZE), []) (enumerate plan) t)).
Proof.
  intros Hf Hd. unfold enumerate.
  destruct (foldM _ _ _ t) as [t' [[img meta]|e]] eqn:E; cbn [snd layout_ok]; [|trivial].
  apply fold_rows_cells in E as [_ [_ [Hpx Hm]]].
  2:{ intros [i [st pn]] Hx. unfold frames_fit in Hf. rewrite forallb_forall in Hf.
        apply (Hf (st, pn)). eapply in_enumerate; exact Hx. }
  2:{ rewrite map_fst_enumerate. apply seq_NoDup. }
  2:{ rewrite map_state_enumerate. exact Hd. }
  intros row st pn Hn. split.
  - rewrite Hm, (enumerate_find_state _ 0 _ _ _ Hd Hn). cbn [Nat.add].
    destruct (row_meta row pn _); reflexivity.
  - intros c dx dy Hc Hdx Hdy.
    assert (Hr : row < length plan) by (apply nth_error_Some; congruence).
    cbn [fst] in Hpx. rewrite Hpx; cbn [img_w img_h image_new]; unfold FRAME_SIZE in *; try nia.
    rewrite enumerate_find_row by lia. rewrite Nat.sub_0_r, Hn. reflexivity.
Qed.

Lemma hero_plan_states n : NoDup (map fst (hero_plan n)).
Proof. apply nodup_names_spec. reflexivity. Qed.

Lemma dict_get_in {V} k (d : list (string * V)) v : dict_get k d = Some v -> In (k, v) d.
Proof.
  induction d as [|[k0 v0] d IH]; simpl; [discriminate|].
  destruct (String.eqb_spec k k0) as [->|_]; [intros H; inversion H; left; reflexivity|].
  intros H. right. apply IH, H.
Qed.

Lemma enemy_plan_states n : NoDup (map fst (enemy_plan n)).
Proof.
  unfold enemy_plan, dict_get_or.
  destruct (dict_get n ENEMY_ANIM_ORDER) as [v|] eqn:E; [|constructor].
  apply dict_get_in in E. apply nodup_names_spec.
  destruct E as [E|[E|[E|[]]]]; inversion E; reflexivity.
Qed.

(** C4 (counterexample). The sample hero [hero_a] has 4 [breathing-idle]
    frames facing south (the first direction sampled) and 6 facing east, so
    [max_frames] is 4 and the east sheet is 4 cells wide; its metadata still
    records 6 frames for [idle]: frames 4 and 5 fall outside the sheet and
    are cut off, so they are not in columns 4 and 5 of the row. *)
Lemma idle_frames_beyond_sheet :
  match snd (create_sprite_sheet list_order ["bolt"%string] hero_a "bolt" "east"
               (count_max_frames list_order ["bolt"%string] hero_a "bolt") []) with
  | Ok (img, meta) =>
      dict_get "idle" meta = Some (AnimMeta 0 6 "breathing-idle")
      /\ img_w img = 4 * FRAME_SIZE
  | Raise _ => False
  end.
Proof. vm_compute. split; reflexivity. Qed.

(** C4 (amended). For every composed sheet of a hero or an enemy (every
    direction, every [max_frames]), whose frames fit in a cell: for every
    row of the RowPlan, with FrameSequence of length N, the metadata holds
    [{row, N, source}] for the row's state when N >= 1 and no entry when
    N = 0; for every column [c < max_frames] the cell [(row, c)] holds frame
    [c] top-left-anchored with its own pixels and is transparent elsewhere,
    and the cells [c >= N] are transparent.  Only the first [max_frames]
    frames of a row are on the sheet: when N > max_frames, frames
    [max_frames..N-1] are cut off although the metadata counts N. *)
Theorem sheet_row_layout (o : path -> list entry -> list entry)
    (Ho : forall p l, Permutation (o p l) l)
    (char_path : path) (char_dir : entry) (enemy_path : path) (enemy_dir : entry)
    (d : string) (mf : nat) (t : list event)
    (Hc : frames_fit o (char_path ++ ["animations"%string]) (child (Some char_dir) "animations") d
            (hero_plan (name char_dir)) = true)
    (He : frames_fit o (enemy_path ++ ["animations"%string]) (child (Some enemy_dir) "animations") d
            (enemy_plan (name enemy_dir)) = true) :
  layout_ok o (char_path ++ ["animations"%string]) (child (Some char_dir) "animations") d mf
    (hero_plan (name char_dir))
    (snd (create_sprite_sheet o char_path char_dir (name char_dir) d mf t))
  /\ layout_ok o (enemy_path ++ ["animations"%string]) (child (Some enemy_dir) "animations") d mf
    (enemy_plan (name enemy_dir))
    (snd (create_enemy_sprite_sheet o enemy_path enemy_dir (name enemy_dir) d mf t)).
Proof.
  split.
  - apply (layout_generic o _ _ (name char_dir) d mf (hero_plan (name char_dir)) t).
    + exact Hc.
    + apply hero_plan_states.
  - apply (layout_generic o _ _ (name enemy_dir) d mf (enemy_plan (name enemy_dir)) t).
    + exact He.
    + apply enemy_plan_states.
Qed.

(** [hero_a] with a 128x128 preview image next to its [animations]
    directory: not a frame, so it is not on any sheet. *)
Definition hero_with_preview : entry :=
  Dir "bolt"%string (dir_children hero_a ++ [File "preview.png"%string (Some (image_new 128 128))]).

Lemma sheet_row_layout_witness :
  frames_fit list_order ["bolt"; "animations"]%string (child (Some hero_with_preview) "animations")
    "east" (hero_plan "bolt") = true
  /\ frames_fit list_order ["enemies"; "slime"; "animations"]%string
       (child (Some enemy_no_frames) "animations") "east" (enemy_plan "slime") = true
  /\ layout_ok list_order ["bolt"; "animations"]%string (child (Some hero_with_preview) "animations")
       "east" 4 (hero_plan "bolt")
       (snd (create_sprite_sheet list_order ["bolt"%string] hero_with_preview "bolt" "east" 4 [])).
Proof.
  assert (Hc : frames_fit list_order ["bolt"; "animations"]%string
                 (child (Some hero_with_preview) "animations") "east" (hero_plan "bolt") = true)
    by (vm_compute; reflexivity).
  assert (He : frames_fit list_order ["enemies"; "slime"; "animations"]%string
                (child (Some enemy_no_frames) "animations") "east" (enemy_plan "slime") = true)
    by (vm_compute; reflexivity).
  split; [exact Hc|]. split; [exact He|].
  exact (proj1 (sheet_row_layout list_order list_order_perm ["bolt"%string] hero_with_preview
                  ["enemies"; "slime"]%string enemy_no_frames "east" 4 [] Hc He)).
Defined.


(** ** Successful runs of [M] computations *)

Lemma bind_ok {A B} (m : M A) (k : A -> M B) t t' b :
  bind m k t = (t', Ok b) -> exists t1 a, m t = (t1, Ok a) /\ k a t1 = (t', Ok b).
Proof. unfold bind. destruct (m t) as [t1 [a|e]]; intros H; [eauto|discriminate]. Qed.

Lemma tell_ok ev t t' u : tell ev t = (t', Ok u) -> t' = t ++ [ev].
Proof. unfold tell. intros H. inversion H. reflexivity. Qed.

Lemma ret_ok {A} (a b : A) t t' : ret a t = (t', Ok b) -> t' = t /\ b = a.
Proof. unfold ret. intros H. inversion H. split; reflexivity. Qed.

Lemma in_list_spec k l : in_list k l = true <-> In k l.
Proof.
  unfold in_list. rewrite existsb_exists. split.
  - intros [x [Hx Hk]]. apply String.eqb_eq in Hk. subst. exact Hx.
  - intros Hk. exists k. split; [exact Hk|apply String.eqb_refl].
Qed.

(** [d[k] = v] on the keys: a new key goes last, an existing one stays. *)
Definition add_key (k : string) (ks : list string) : list string :=
  if in_list k ks then ks else ks ++ [k].

Lemma dict_set_keys {V} (k : string) (v : V) d :
  map fst (dict_set k v d) = add_key k (map fst d).
Proof.
  unfold add_key, in_list. induction d as [|[k' v'] d IH]; simpl; [reflexivity|].
  destruct (String.eqb_spec k k') as [->|Hne]; simpl; [reflexivity|].
  rewrite IH. destruct (existsb _ _); reflexivity.
Qed.

Lemma dict_set_new_key {V} (k : string) (v : V) d :
  ~ In k (map fst d) -> map fst (dict_set k v d) = map fst d ++ [k].
Proof.
  intros Hk. rewrite dict_set_keys. unfold add_key.
  destruct (in_list k (map fst d)) eqn:E; [apply in_list_spec in E; contradiction|reflexivity].
Qed.

(** ** The rows of one sheet *)

Lemma paste_frames_ok sheet fs row col t t' s :
  paste_frames sheet fs row col t = (t', Ok s) -> t' = t.
Proof.
  revert sheet col t. induction fs as [|fp fs IH]; intros sheet col t E; cbn [paste_frames] in E.
  - apply ret_ok in E as [-> _]. reflexivity.
  - apply bind_ok in E as [t1 [fr [E1 E2]]]. apply IH in E2. subst t'.
    destruct fp as [fn [img|]|dn dch]; cbn in E1; inversion E1; reflexivity.
Qed.

(** The warning a row of the plan prints. *)
Definition plan_warning (o : path -> list entry -> list entry) (ap : path) (ad : option entry)
    (who d : string) (x : string * string) : list event :=
  let '(_, pn) := x in
  if String.eqb pn "" then []
  else match row_frames o ap ad d pn with
       | [] => [Print (MWarnNoFrames who pn d)]
       | _ => []
       end.

Lemma compose_row_ok o ap ad who d acc row st pn t t' acc' :
  compose_row o ap ad who d acc (row, (st, pn)) t = (t', Ok acc') ->
  t' = t ++ plan_warning o ap ad who d (st, pn) /\
  snd acc' = if has_frames (row_frames o ap ad d pn)
             then dict_set st (AnimMeta row (length (row_frames o ap ad d pn)) pn) (snd acc)
             else snd acc.
Proof.
  unfold compose_row, plan_warning, row_frames. cbv beta iota zeta.
  destruct (String.eqb pn "").
  - intros E. apply ret_ok in E as [-> ->]. rewrite app_nil_r. split; reflexivity.
  - destruct (get_frame_files o (ap ++ [pn]) (child ad pn) d) as [|f fs] eqn:Eg; intros E.
    + apply bind_ok in E as [t1 [u [E1 E2]]]. apply tell_ok in E1. apply ret_ok in E2 as [-> ->].
      subst t1. split; reflexivity.
    + apply bind_ok in E as [t1 [s [E1 E2]]]. apply paste_frames_ok in E1.
      apply ret_ok in E2 as [-> ->]. subst t1. rewrite app_nil_r. split; reflexivity.
Qed.

Lemma compose_rows_ok o ap ad who d (rows : list (nat * (string * string))) acc t t' acc' :
  NoDup (map (fun x => fst (snd x)) rows) ->
  (forall x, In x rows -> ~ In (fst (snd x)) (map fst (snd acc))) ->
  foldM (compose_row o ap ad who d) acc rows t = (t', Ok acc') ->
  t' = t ++ flat_map (fun x => plan_warning o ap ad who d (snd x)) rows /\
  map fst (snd acc') = map fst (snd acc) ++
    map (fun x => fst (snd x))
      (filter (fun x => has_frames (row_frames o ap ad d (snd (snd x)))) rows).
Proof.
  revert acc t. induction rows as [|[row [st pn]] rows IH]; intros acc t Hd Hk E.
  - cbn in E. apply ret_ok in E as [-> ->]. rewrite !app_nil_r. split; reflexivity.
  - cbn [foldM] in E. apply bind_ok in E as [t1 [acc1 [E1 E2]]].
    apply compose_row_ok in E1 as [-> Hm].
    cbn [map fst snd] in Hd. inversion Hd as [|? ? Hst Hd']; subst.
    assert (Hk1 : forall x, In x rows -> ~ In (fst (snd x)) (map fst (snd acc1))).
    { intros x Hx Hin. rewrite Hm in Hin.
      destruct (has_frames _); [rewrite dict_set_new_key in Hin|].
      - apply in_app_or in Hin as [Hin|[Heq|[]]].
        + exact (Hk x (or_intror Hx) Hin).
        + apply Hst. rewrite Heq. apply (in_map (fun x => fst (snd x))), Hx.
      - exact (Hk _ (or_introl eq_refl)).
      - exact (Hk x (or_intror Hx) Hin). }
    destruct (IH acc1 _ Hd' Hk1 E2) as [-> Hm2]. split.
    + cbn [flat_map snd]. rewrite app_assoc. reflexivity.
    + rewrite Hm2. unfold anims_meta in *. rewrite Hm. cbn [filter snd]. destruct (has_frames _).
      * rewrite dict_set_new_key by exact (Hk _ (or_introl eq_refl)).
        cbn [map fst snd]. rewrite <- app_assoc. reflexivity.
      * reflexivity.
Qed.

Lemma enumerate_states_filter (g : string -> bool) (plan : list (string * string)) k :
  map (fun x => fst (snd x)) (filter (fun x => g (snd (snd x))) (combine (seq k (length plan)) plan))
  = map fst (filter (fun x => g (snd x)) plan).
Proof.
  revert k; induction plan as [|[st pn] plan IH]; intros k; [reflexivity|].
  cbn [length seq combine filter snd]. destruct (g pn); cbn [map fst snd]; rewrite IH; reflexivity.
Qed.

Lemma enumerate_flat_map {B} (f : string * string -> list B) (plan : list (string * string)) k :
  flat_map (fun x => f (snd x)) (combine (seq k (length plan)) plan) = flat_map f plan.
Proof.
  revert k; induction plan as [|x plan IH]; intros k; [reflexivity|].
  cbn [length seq combine flat_map snd]. rewrite IH. reflexivity.
Qed.

Lemma sheet_rows_ok o ap ad who d sheet plan t t' img meta :
  NoDup (map fst plan) ->
  foldM (compose_row o ap ad who d) (sheet, []) (enumerate plan) t = (t', Ok (img, meta)) ->
  t' = t ++ flat_map (plan_warning o ap ad who d) plan /\
  map fst meta = map fst (filter (fun x => has_frames (row_frames o ap ad d (snd x))) plan).
Proof.
  intros Hd E. unfold enumerate in E. apply compose_rows_ok in E as [-> Hm].
  - rewrite enumerate_flat_map. split; [reflexivity|].
    cbn [snd] in Hm. rewrite Hm. apply (enumerate_states_filter (fun pn => has_frames (row_frames o ap ad d pn))).
  - rewrite map_state_enumerate. exact Hd.
  - intros x _ [].
Qed.

(** ** The direction loop *)

(** The body of the loop of [directions_loop]. *)
Definition direction_step (out_dir : option entry) (n : string)
    (create : string -> M (image * anims_meta)) (acc : list (string * dir_meta))
    (direction : string) : M (list (string * dir_meta)) :=
  tell (Print (MCreating direction)) ;;
  '(sheet, anim_meta) <- create direction ;;
  let f := sheet_file n direction in
  save_png out_dir f sheet ;;
  tell (Print (MSaved ["sheets"%string; f])) ;;
  ret (dict_set direction (DirMeta ("pixellab/sheets/" ++ f) anim_meta) acc).

Lemma directions_loop_steps out n create :
  directions_loop out n create = foldM (direction_step out n create) [] DIRECTIONS.
Proof. reflexivity. Qed.

(** The sheet files a trace writes, in order. *)
Definition saved_pngs (tn : list event) : list path :=
  flat_map (fun ev => match ev with SavePng p _ => [p] | _ => [] end) tn.

Lemma saved_pngs_app t1 t2 : saved_pngs (t1 ++ t2) = saved_pngs t1 ++ saved_pngs t2.
Proof. unfold saved_pngs. apply flat_map_app. Qed.

Lemma saved_pngs_warnings w : Forall is_warning w -> saved_pngs w = [].
Proof.
  induction 1 as [|ev w Hev _ IH]; [reflexivity|].
  destruct ev as [m| | |]; [destruct m| | |]; cbn in Hev |- *; tauto.
Qed.

Lemma save_png_ok out f img t t' u :
  save_png out f img t = (t', Ok u) -> t' = t ++ [SavePng ["sheets"%string; f] img].
Proof.
  unfold save_png. destruct (child out f) as [[|]|]; try destruct (png_encodable img);
    intros E; try discriminate; apply tell_ok in E; exact E.
Qed.

Lemma direction_step_ok out n create acc d t t' acc' :
  spec_M is_warning (fun _ => True) (create d) ->
  direction_step out n create acc d t = (t', Ok acc') ->
  exists t0 t1 img am w, create d t0 = (t1, Ok (img, am)) /\ Forall is_warning w /\
    t' = t ++ [Print (MCreating d)] ++ w
           ++ [SavePng ["sheets"%string; sheet_file n d] img;
               Print (MSaved ["sheets"%string; sheet_file n d])] /\
    acc' = dict_set d (DirMeta ("pixellab/sheets/" ++ sheet_file n d) am) acc.
Proof.
  intros Hc E. unfold direction_step in E.
  apply bind_ok in E as [t1 [u1 [E1 E]]]. apply tell_ok in E1.
  apply bind_ok in E as [t2 [[img am] [E2 E]]].
  apply bind_ok in E as [t3 [u3 [E3 E]]]. apply save_png_ok in E3.
  apply bind_ok in E as [t4 [u4 [E4 E]]]. apply tell_ok in E4.
  apply ret_ok in E as [-> ->].
  destruct (Hc _ _ _ E2) as [w [-> [Hw _]]].
  exists t1, (t1 ++ w), img, am, w. split; [exact E2|]. split; [exact Hw|]. split; [|reflexivity].
  subst. rewrite <- !app_assoc. reflexivity.
Qed.

(** What the loop over [DIRECTIONS] leaves: one sheet written per
    direction, and the direction's entry pointing at it with the animation
    metadata composed along with that sheet. *)
Definition sheets_saved (n : string) (create : string -> M (image * anims_meta))
    (tn : list event) (dirs : list (string * dir_meta)) : Prop :=
  saved_pngs tn = map (fun d => ["sheets"%string; sheet_file n d]) DIRECTIONS
  /\ map fst dirs = DIRECTIONS
  /\ forall d, In d DIRECTIONS ->
       exists t0 t1 img am, create d t0 = (t1, Ok (img, am))
         /\ In (SavePng ["sheets"%string; sheet_file n d] img) tn
         /\ dict_get d dirs = Some (DirMeta ("pixellab/sheets/" ++ sheet_file n d) am).

Lemma direction_steps_ok out n create ds acc t t' dirs :
  (forall d, spec_M is_warning (fun _ => True) (create d)) ->
  NoDup ds -> (forall d, In d ds -> ~ In d (map fst acc)) ->
  foldM (direction_step out n create) acc ds t = (t', Ok dirs) ->
  exists tn, t' = t ++ tn
    /\ saved_pngs tn = map (fun d => ["sheets"%string; sheet_file n d]) ds
    /\ map fst dirs = map fst acc ++ ds
    /\ (forall k, ~ In k ds -> dict_get k dirs = dict_get k acc)
    /\ forall d, In d ds ->
         exists t0 t1 img am, create d t0 = (t1, Ok (img, am))
           /\ In (SavePng ["sheets"%string; sheet_file n d] img) tn
           /\ dict_get d dirs = Some (DirMeta ("pixellab/sheets/" ++ sheet_file n d) am).
Proof.
  intros Hc. revert acc t. induction ds as [|d ds IH]; intros acc t Hd Hk E.
  - cbn in E. apply ret_ok in E as [-> ->]. exists [].
    rewrite !app_nil_r. repeat split; try reflexivity. intros d [].
  - cbn [foldM] in E. apply bind_ok in E as [t1 [acc1 [E1 E2]]].
    destruct (direction_step_ok _ _ _ _ _ _ _ _ (Hc d) E1) as [t0 [t2 [img [am [w [Ec [Hw [Ht1 ->]]]]]]]].
    inversion Hd as [|? ? Hnd Hd']; subst.
    assert (Hk1 : forall d', In d' ds -> ~ In d' (map fst (dict_set d
                    (DirMeta ("pixellab/sheets/" ++ sheet_file n d) am) acc))).
    { intros d' Hd1 Hin. rewrite dict_set_new_key in Hin by exact (Hk d (or_introl eq_refl)).
      apply in_app_or in Hin as [Hin|[<-|[]]]; [exact (Hk d' (or_intror Hd1) Hin)|exact (Hnd Hd1)]. }
    destruct (IH _ _ Hd' Hk1 E2) as [tn [Ht' [Hs [Hkeys [Hother Hall]]]]].
    eexists. split; [rewrite Ht', <- !app_assoc; reflexivity|]. split.
    + rewrite !saved_pngs_app, Hs, (saved_pngs_warnings _ Hw). reflexivity.
    + split; [rewrite Hkeys, dict_set_new_key by exact (Hk d (or_introl eq_refl));
              rewrite <- app_assoc; reflexivity|]. split.
      * intros k Hnk. rewrite Hother by (intros H; apply Hnk; right; exact H).
        apply dict_get_set_other. intros ->. apply Hnk. left. reflexivity.
      * intros d' [<-|Hd1].
        -- exists t0, t2, img, am. split; [exact Ec|]. split.
           ++ rewrite !in_app_iff. right. right. left. left. reflexivity.
           ++ rewrite Hother by exact Hnd. apply dict_get_set_same.
        -- destruct (Hall d' Hd1) as [t3 [t4 [img' [am' [E3 [Hin Hg]]]]]].
           exists t3, t4, img', am'. split; [exact E3|]. split; [|exact Hg].
           rewrite !in_app_iff. right. right. right. exact Hin.
Qed.

Lemma DIRECTIONS_NoDup : NoDup DIRECTIONS.
Proof. apply nodup_names_spec. reflexivity. Qed.

Lemma directions_loop_ok out n create t t' dirs :
  (forall d, spec_M is_warning (fun _ => True) (create d)) ->
  directions_loop out n create t = (t', Ok dirs) ->
  exists tn, t' = t ++ tn /\ sheets_saved n create tn dirs.
Proof.
  intros Hc E. rewrite directions_loop_steps in E.
  destruct (direction_steps_ok _ _ _ _ _ _ _ _ Hc DIRECTIONS_NoDup (fun d _ (H : In d (map fst (@nil (string * dir_meta)))) => H) E)
    as [tn [-> [Hs [Hk [_ Hall]]]]].
  exists tn. split; [reflexivity|]. split; [exact Hs|]. split; [exact Hk|exact Hall].
Qed.

(** X1. [get_frame_files anim_dir direction] lists exactly the entries of
    the directory [anim_dir/direction] whose name matches [frame_*.png]
    (nothing when that path does not exist or is a file), and, in a tree
    whose directories have distinct names, lists them in strictly
    increasing name order, whatever order the directory is enumerated in. *)
Theorem get_frame_files_contents (o : path -> list entry -> list entry)
    (Ho : forall p l, Permutation (o p l) l) (ap : path) (anim_dir : option entry) (d : string) :
  (forall e, In e (get_frame_files o ap anim_dir d) <->
     exists r ch, child anim_dir d = Some (Dir r ch) /\ In e ch /\ glob_frame (name e) = true)
  /\ (wf_opt anim_dir -> StronglySorted lt_name (get_frame_files o ap anim_dir d)).
Proof.
  unfold get_frame_files. split.
  - intros e. destruct (child anim_dir d) as [[f x|r ch]|].
    + split; [intros []|intros [r [ch [H _]]]; discriminate].
    + rewrite in_sorted_entries, filter_In. split.
      * intros [He Hg]. exists r, ch. split; [reflexivity|]. split; [|exact Hg].
        eapply Permutation_in; [apply Ho|exact He].
      * intros [r' [ch' [Hc [He Hg]]]]. inversion Hc; subst. split; [|exact Hg].
        eapply Permutation_in; [symmetry; apply Ho|exact He].
    + split; [intros []|intros [r [ch [H _]]]; discriminate].
  - intros Hw. pose proof (wf_child _ d Hw) as Hc.
    destruct (child anim_dir d) as [[f x|r ch]|]; try constructor.
    apply sorted_entries_sorted, NoDup_map_filter, (perm_NoDup_names o Ho).
    apply wfb_Dir_iff in Hc as [Hd _]. exact Hd.
Qed.

Lemma get_frame_files_contents_witness :
  (forall p l, Permutation (list_order p l) l)
  /\ get_frame_files list_order ["bolt"; "animations"; "breathing-idle"]%string
       (child (child (Some hero_a) "animations") "breathing-idle") "south"
     = [frame_file "frame_000.png"; frame_file "frame_001.png";
        frame_file "frame_002.png"; frame_file "frame_003.png"]%string
  /\ wf_opt (child (child (Some hero_a) "animations") "breathing-idle")
  /\ StronglySorted lt_name
       (get_frame_files list_order ["bolt"; "animations"; "breathing-idle"]%string
          (child (child (Some hero_a) "animations") "breathing-idle") "south").
Proof.
  assert (Hw : wf_opt (child (child (Some hero_a) "animations") "breathing-idle"))
    by (vm_compute; reflexivity).
  split; [exact list_order_perm|]. split; [vm_compute; reflexivity|]. split; [exact Hw|].
  exact (proj2 (get_frame_files_contents list_order list_order_perm
                  ["bolt"; "animations"; "breathing-idle"]%string
                  (child (child (Some hero_a) "animations") "breathing-idle") "south") Hw).
Defined.

(** X2. When [create_sprite_sheet] (hero) or [create_enemy_sprite_sheet]
    returns, the keys of its animation metadata are, in RowPlan order, the
    states of the rows that have frames in that direction: a row with no
    source name or with no frames gets no key. *)
Theorem sheet_metadata_keys (o : path -> list entry -> list entry) (cp : path) (cd : entry)
    (ep : path) (ed : entry) (n d : string) (mf : nat) (t : list event) :
  match create_sprite_sheet o cp cd n d mf t with
  | (_, Ok (_, meta)) =>
      map fst meta =
      map fst (filter (fun x => has_frames (row_frames o (cp ++ ["animations"%string])
                                              (child (Some cd) "animations") d (snd x)))
                 (hero_plan n))
  | (_, Raise _) => True
  end
  /\ match create_enemy_sprite_sheet o ep ed n d mf t with
     | (_, Ok (_, meta)) =>
         map fst meta =
         map fst (filter (fun x => has_frames (row_frames o (ep ++ ["animations"%string])
                                                 (child (Some ed) "animations") d (snd x)))
                    (enemy_plan n))
     | (_, Raise _) => True
     end.
Proof.
  split.
  - destruct (create_sprite_sheet o cp cd n d mf t) as [t' [[img meta]|e]] eqn:E; [|exact I].
    unfold create_sprite_sheet in E. apply sheet_rows_ok in E as [_ Hm]; [exact Hm|].
    apply hero_plan_states.
  - destruct (create_enemy_sprite_sheet o ep ed n d mf t) as [t' [[img meta]|e]] eqn:E; [|exact I].
    unfold create_enemy_sprite_sheet in E. apply sheet_rows_ok in E as [_ Hm]; [exact Hm|].
    apply enemy_plan_states.
Qed.

(** X3. When [create_sprite_sheet] (hero) or [create_enemy_sprite_sheet]
    returns, what it printed is exactly one "No frames" warning per RowPlan
    row that has a source name but no frames in that direction, in RowPlan
    order, and nothing else. *)
Theorem sheet_warnings (o : path -> list entry -> list entry) (cp : path) (cd : entry)
    (ep : path) (ed : entry) (n d : string) (mf : nat) (t : list event) :
  match create_sprite_sheet o cp cd n d mf t with
  | (t', Ok _) =>
      t' = t ++ flat_map (plan_warning o (cp ++ ["animations"%string])
                            (child (Some cd) "animations") n d) (hero_plan n)
  | (_, Raise _) => True
  end
  /\ match create_enemy_sprite_sheet o ep ed n d mf t with
     | (t', Ok _) =>
         t' = t ++ flat_map (plan_warning o (ep ++ ["animations"%string])
                               (child (Some ed) "animations") n d) (enemy_plan n)
     | (_, Raise _) => True
     end.
Proof.
  split.
  - destruct (create_sprite_sheet o cp cd n d mf t) as [t' [[img meta]|e]] eqn:E; [|exact I].
    unfold create_sprite_sheet in E. apply sheet_rows_ok in E as [Ht _]; [exact Ht|].
    apply hero_plan_states.
  - destruct (create_enemy_sprite_sheet o ep ed n d mf t) as [t' [[img meta]|e]] eqn:E; [|exact I].
    unfold create_enemy_sprite_sheet in E. apply sheet_rows_ok in E as [Ht _]; [exact Ht|].
    apply enemy_plan_states.
Qed.

Lemma process_character_ok o out cp cd t t' m :
  process_character o out cp cd t = (t', Ok m) ->
  exists tn dirs, t' = t ++ tn
    /\ m = CharacterMeta (name cd) FRAME_SIZE (count_max_frames o cp cd (name cd)) dirs
    /\ sheets_saved (name cd)
         (fun d => create_sprite_sheet o cp cd (name cd) d (count_max_frames o cp cd (name cd)))
         tn dirs.
Proof.
  intros E. unfold process_character in E.
  apply bind_ok in E as [t1 [u1 [E1 E]]]. apply tell_ok in E1.
  apply bind_ok in E as [t2 [u2 [E2 E]]]. apply tell_ok in E2.
  apply bind_ok in E as [t3 [dirs [E3 E]]]. apply ret_ok in E as [-> ->].
  apply directions_loop_ok in E3 as [tn [-> Hs]];
    [|intros d; apply create_sprite_sheet_warnings].
  subst. eexists _, dirs. split; [rewrite <- !app_assoc; reflexivity|]. split; [reflexivity|].
  destruct Hs as [Hp [Hk Hall]]. split; [|split; [exact Hk|]].
  - rewrite !saved_pngs_app, Hp. reflexivity.
  - intros d Hd. destruct (Hall d Hd) as [t0 [t1 [img [am [Ec [Hin Hg]]]]]].
    exists t0, t1, img, am. split; [exact Ec|]. split; [|exact Hg].
    rewrite !in_app_iff. right. right. exact Hin.
Qed.

Lemma process_enemy_ok o out ep ed t t' m :
  process_enemy o out ep ed t = (t', Ok m) ->
  exists tn dirs, t' = t ++ tn
    /\ m = EnemyMeta (name ed) FRAME_SIZE (count_enemy_max_frames o ep ed (name ed)) dirs
    /\ sheets_saved (name ed)
         (fun d => create_enemy_sprite_sheet o ep ed (name ed) d
                     (count_enemy_max_frames o ep ed (name ed)))
         tn dirs.
Proof.
  intros E. unfold process_enemy in E.
  apply bind_ok in E as [t1 [u1 [E1 E]]]. apply tell_ok in E1.
  apply bind_ok in E as [t2 [u2 [E2 E]]]. apply tell_ok in E2.
  apply bind_ok in E as [t3 [dirs [E3 E]]]. apply ret_ok in E as [-> ->].
  apply directions_loop_ok in E3 as [tn [-> Hs]];
    [|intros d; apply create_enemy_sprite_sheet_warnings].
  subst. eexists _, dirs. split; [rewrite <- !app_assoc; reflexivity|]. split; [reflexivity|].
  destruct Hs as [Hp [Hk Hall]]. split; [|split; [exact Hk|]].
  - rewrite !saved_pngs_app, Hp. reflexivity.
  - intros d Hd. destruct (Hall d Hd) as [t0 [t1 [img [am [Ec [Hin Hg]]]]]].
    exists t0, t1, img, am. split; [exact Ec|]. split; [|exact Hg].
    rewrite !in_app_iff. right. right. exact Hin.
Qed.

(** X4. When [process_character] or [process_enemy] returns for the entity
    directory [n], it has written exactly four sheets, [sheets/n_south.png],
    [n_west.png], [n_east.png] and [n_north.png] in that order; its
    metadata's [directions] has the keys south, west, east, north in that
    order; and the entry of each direction names its sheet as
    [pixellab/sheets/n_<direction>.png] and holds the animation metadata
    composed together with the image written to that file. *)
Theorem entity_sheets_written (o : path -> list entry -> list entry) (out : option entry)
    (cp : path) (cd : entry) (ep : path) (ed : entry) (t : list event) :
  match process_character o out cp cd t with
  | (t', Ok m) =>
      exists tn dirs, t' = t ++ tn
        /\ m = CharacterMeta (name cd) FRAME_SIZE (count_max_frames o cp cd (name cd)) dirs
        /\ sheets_saved (name cd)
             (fun d => create_sprite_sheet o cp cd (name cd) d (count_max_frames o cp cd (name cd)))
             tn dirs
  | (_, Raise _) => True
  end
  /\ match process_enemy o out ep ed t with
     | (t', Ok m) =>
         exists tn dirs, t' = t ++ tn
           /\ m = EnemyMeta (name ed) FRAME_SIZE (count_enemy_max_frames o ep ed (name ed)) dirs
           /\ sheets_saved (name ed)
                (fun d => create_enemy_sprite_sheet o ep ed (name ed) d
                            (count_enemy_max_frames o ep ed (name ed)))
                tn dirs
     | (_, Raise _) => True
     end.
Proof.
  split.
  - destruct (process_character o out cp cd t) as [t' [m|e]] eqn:E; [|exact I].
    exact (process_character_ok _ _ _ _ _ _ _ E).
  - destruct (process_enemy o out ep ed t) as [t' [m|e]] eqn:E; [|exact I].
    exact (process_enemy_ok _ _ _ _ _ _ _ E).
Qed.

(** ** When an entity is processed without error *)

(** [m] returns normally from every trace, with a result satisfying [Q]. *)
Definition succeeds {A : Type} (Q : A -> Prop) (m : M A) : Prop :=
  forall t, exists t' a, m t = (t', Ok a) /\ Q a.

Lemma succeeds_ret {A} (Q : A -> Prop) a : Q a -> succeeds Q (ret a).
Proof. intros HQ t. exists t, a. split; [reflexivity|exact HQ]. Qed.

Lemma succeeds_tell (Q : unit -> Prop) ev : Q tt -> succeeds Q (tell ev).
Proof. intros HQ t. exists (t ++ [ev]), tt. split; [reflexivity|exact HQ]. Qed.

Lemma succeeds_bind {A B} (Q : A -> Prop) (R : B -> Prop) (m : M A) (k : A -> M B) :
  succeeds Q m -> (forall a, Q a -> succeeds R (k a)) -> succeeds R (bind m k).
Proof.
  intros Hm Hk t. destruct (Hm t) as [t1 [a [E1 Ha]]].
  destruct (Hk a Ha t1) as [t2 [b [E2 Hb]]]. exists t2, b. unfold bind. rewrite E1. auto.
Qed.

Lemma succeeds_weaken {A} (Q Q' : A -> Prop) m :
  succeeds Q m -> (forall a, Q a -> Q' a) -> succeeds Q' m.
Proof. intros Hm HQ t. destruct (Hm t) as [t' [a [E Ha]]]. exists t', a. auto. Qed.

Lemma succeeds_foldM {A B} (I : A -> Prop) (f : A -> B -> M A) (l : list B) acc :
  I acc -> (forall a x, In x l -> I a -> succeeds I (f a x)) -> succeeds I (foldM f acc l).
Proof.
  revert acc; induction l as [|x l IH]; intros acc Hacc Hf; cbn [foldM].
  - apply succeeds_ret, Hacc.
  - apply succeeds_bind with (Q := I); [apply Hf; [left; reflexivity|exact Hacc]|].
    intros a Ha. apply IH; [exact Ha|]. intros a' x' Hx. apply Hf. right. exact Hx.
Qed.

(** Every entry of the tree named like a frame ([frame_*.png]) is a file
    Pillow can decode. *)
Fixpoint frames_decodable (e : entry) : bool :=
  match e with
  | File n data => negb (glob_frame n) || match data with Some _ => true | None => false end
  | Dir n ch =>
      negb (glob_frame n) &&
      (fix all (l : list entry) : bool :=
         match l with [] => true | x :: r => frames_decodable x && all r end) ch
  end.

Lemma frames_decodable_Dir n ch :
  frames_decodable (Dir n ch) = negb (glob_frame n) && forallb frames_decodable ch.
Proof. simpl. f_equal. Qed.

Definition decodable_opt (p : option entry) : Prop :=
  match p with Some e => frames_decodable e = true | None => True end.

Lemma decodable_child p c : decodable_opt p -> decodable_opt (child p c).
Proof.
  destruct p as [[n d|n ch]|]; cbn [child decodable_opt]; trivial. intros Hd.
  rewrite frames_decodable_Dir in Hd. apply andb_true_iff in Hd as [_ Hd].
  rewrite forallb_forall in Hd.
  destruct (find_child c ch) as [e|] eqn:E; cbn [decodable_opt]; trivial.
  apply Hd, (find_child_in _ _ _ E).
Qed.

Lemma row_frames_decodable o (Ho : forall p l, Permutation (o p l) l) ap ad d pn :
  decodable_opt ad ->
  forall e, In e (row_frames o ap ad d pn) -> exists n img, e = File n (Some img).
Proof.
  intros Had e He. unfold row_frames, get_frame_files in He.
  destruct (String.eqb pn ""); [destruct He|].
  pose proof (decodable_child _ d (decodable_child ad pn Had)) as Hc.
  destruct (child (child ad pn) d) as [[f x|r ch]|]; try destruct He.
  cbn [decodable_opt] in Hc. rewrite frames_decodable_Dir in Hc.
  apply andb_true_iff in Hc as [_ Hc]. rewrite forallb_forall in Hc.
  apply (proj1 (in_sorted_entries _ _)), filter_In in He as [He Hg].
  apply (Permutation_in _ (Ho _ _)), Hc in He.
  destruct e as [fn [img|]|dn dch]; cbn [name] in Hg.
  - exists fn, img. reflexivity.
  - cbn in He. rewrite Hg in He. discriminate.
  - rewrite frames_decodable_Dir, Hg in He. discriminate.
Qed.

Lemma paste_frames_succeeds sheet fs row col :
  (forall e, In e fs -> exists n img, e = File n (Some img)) ->
  succeeds (fun s => img_w s = img_w sheet /\ img_h s = img_h sheet) (paste_frames sheet fs row col).
Proof.
  revert sheet col. induction fs as [|fp fs IH]; intros sheet col Hf; cbn [paste_frames].
  - apply succeeds_ret. split; reflexivity.
  - destruct (Hf fp (or_introl eq_refl)) as [n [img ->]]. cbn [image_open]. rewrite bind_ret.
    eapply succeeds_weaken; [apply IH; intros e He; apply Hf; right; exact He|].
    intros s [Hw Hh]. rewrite Hw, Hh. apply paste_dims.
Qed.

Lemma compose_row_succeeds o (Ho : forall p l, Permutation (o p l) l) ap ad who d acc r :
  decodable_opt ad ->
  succeeds (fun acc' => img_w (fst acc') = img_w (fst acc) /\ img_h (fst acc') = img_h (fst acc))
    (compose_row o ap ad who d acc r).
Proof.
  intros Had. destruct r as [row [st pn]]. unfold compose_row.
  pose proof (row_frames_decodable o Ho ap ad d pn Had) as Hf. unfold row_frames in Hf.
  destruct (String.eqb pn ""); [apply succeeds_ret; split; reflexivity|].
  destruct (get_frame_files o (ap ++ [pn]) (child ad pn) d) as [|f fs].
  - apply succeeds_bind with (Q := fun _ => True); [apply succeeds_tell; trivial|].
    intros _ _. apply succeeds_ret. split; reflexivity.
  - apply succeeds_bind with (Q := fun s => img_w s = img_w (fst acc) /\ img_h s = img_h (fst acc)).
    + apply paste_frames_succeeds, Hf.
    + intros s Hs. apply succeeds_ret. exact Hs.
Qed.

Lemma compose_rows_succeed o (Ho : forall p l, Permutation (o p l) l) ap ad who d sheet plan :
  decodable_opt ad ->
  succeeds (fun res => img_w (fst res) = img_w sheet /\ img_h (fst res) = img_h sheet)
    (foldM (compose_row o ap ad who d) (sheet, []) (enumerate plan)).
Proof.
  intros Had. apply succeeds_foldM; [split; reflexivity|]. intros acc x _ [Hw Hh].
  eapply succeeds_weaken; [apply (compose_row_succeeds o Ho ap ad who d acc x Had)|].
  intros acc' [Hw' Hh']. rewrite Hw', Hh'. split; assumption.
Qed.

(** The output path is not a directory. *)
Definition no_dir_at (out_dir : option entry) (f : string) : bool :=
  match child out_dir f with Some (Dir _ _) => false | _ => true end.

Lemma save_png_succeeds out f img :
  no_dir_at out f = true -> png_encodable img = true -> succeeds (fun _ => True) (save_png out f img).
Proof.
  unfold no_dir_at, save_png. intros Hd He.
  destruct (child out f) as [[|]|]; try discriminate; rewrite He; apply succeeds_tell; trivial.
Qed.

Lemma directions_loop_succeeds out n (create : string -> M (image * anims_meta)) :
  (forall d, succeeds (fun res => png_encodable (fst res) = true) (create d)) ->
  forallb (fun d => no_dir_at out (sheet_file n d)) DIRECTIONS = true ->
  succeeds (fun _ => True) (directions_loop out n create).
Proof.
  intros Hc Hout. rewrite forallb_forall in Hout. unfold directions_loop.
  apply succeeds_foldM; [trivial|]. intros acc d Hd _.
  apply succeeds_bind with (Q := fun _ => True); [apply succeeds_tell; trivial|]. intros _ _.
  apply succeeds_bind with (Q := fun res => png_encodable (fst res) = true); [apply Hc|].
  intros [sheet am] He. cbn [fst] in He.
  apply succeeds_bind with (Q := fun _ => True); [apply save_png_succeeds; [apply Hout, Hd|exact He]|].
  intros _ _. apply succeeds_bind with (Q := fun _ => True); [apply succeeds_tell; trivial|].
  intros _ _. apply succeeds_ret. trivial.
Qed.

Lemma count_enemy_rows o ep ed n :
  0 < count_enemy_max_frames o ep ed n -> 0 < length (enemy_plan n).
Proof.
  unfold count_enemy_max_frames. change (dict_get_or n ENEMY_ANIM_ORDER []) with (enemy_plan n).
  destruct (enemy_plan n); cbn; lia.
Qed.

(** X5. [process_character] on a hero directory returns normally (whatever
    the trace before it) when its rows have frames ([max_frames > 0]), every
    [frame_*.png] entry under the directory is a decodable image file, and
    none of the four output paths [sheets/n_<direction>.png] is a
    directory. *)
Theorem process_character_succeeds (o : path -> list entry -> list entry)
    (Ho : forall p l, Permutation (o p l) l) (out : option entry) (cp : path) (cd : entry)
    (t : list event)
    (Hd : frames_decodable cd = true)
    (Hout : forallb (fun d => no_dir_at out (sheet_file (name cd) d)) DIRECTIONS = true)
    (Hmf : 0 < count_max_frames o cp cd (name cd)) :
  exists t' m, process_character o out cp cd t = (t', Ok m).
Proof.
  assert (Hs : succeeds (fun _ => True) (process_character o out cp cd)).
  { unfold process_character.
    apply succeeds_bind with (Q := fun _ => True); [apply succeeds_tell; trivial|]. intros _ _.
    apply succeeds_bind with (Q := fun _ => True); [apply succeeds_tell; trivial|]. intros _ _.
    apply succeeds_bind with (Q := fun _ => True); [|intros; apply succeeds_ret; trivial].
    apply directions_loop_succeeds; [|exact Hout]. intros d.
    unfold create_sprite_sheet.
    eapply succeeds_weaken.
    - apply (compose_rows_succeed o Ho). apply (decodable_child (Some cd)). exact Hd.
    - intros res [Hw Hh]. unfold png_encodable. rewrite Hw, Hh. cbn [img_w img_h image_new].
      unfold FRAME_SIZE. apply andb_true_iff. split; apply Nat.ltb_lt; [nia|cbn; lia]. }
  destruct (Hs t) as [t' [m [E _]]]. exists t', m. exact E.
Qed.

(** X6. [process_enemy] on an enemy directory returns normally (whatever
    the trace before it) when its rows have frames ([max_frames > 0]), every
    [frame_*.png] entry under the directory is a decodable image file, and
    none of the four output paths [sheets/n_<direction>.png] is a
    directory. *)
Theorem process_enemy_succeeds (o : path -> list entry -> list entry)
    (Ho : forall p l, Permutation (o p l) l) (out : option entry) (ep : path) (ed : entry)
    (t : list event)
    (Hd : frames_decodable ed = true)
    (Hout : forallb (fun d => no_dir_at out (sheet_file (name ed) d)) DIRECTIONS = true)
    (Hmf : 0 < count_enemy_max_frames o ep ed (name ed)) :
  exists t' m, process_enemy o out ep ed t = (t', Ok m).
Proof.
  pose proof (count_enemy_rows _ _ _ _ Hmf) as Hr.
  assert (Hs : succeeds (fun _ => True) (process_enemy o out ep ed)).
  { unfold process_enemy.
    apply succeeds_bind with (Q := fun _ => True); [apply succeeds_tell; trivial|]. intros _ _.
    apply succeeds_bind with (Q := fun _ => True); [apply succeeds_tell; trivial|]. intros _ _.
    apply succeeds_bind with (Q := fun _ => True); [|intros; apply succeeds_ret; trivial].
    apply directions_loop_succeeds; [|exact Hout]. intros d.
    unfold create_enemy_sprite_sheet.
    eapply succeeds_weaken.
    - apply (compose_rows_succeed o Ho). apply (decodable_child (Some ed)). exact Hd.
    - intros res [Hw Hh]. unfold png_encodable. rewrite Hw, Hh. cbn [img_w img_h image_new].
      unfold FRAME_SIZE. apply andb_true_iff. split; apply Nat.ltb_lt; nia. }
  destruct (Hs t) as [t' [m [E _]]]. exists t', m. exact E.
Qed.

Lemma process_character_succeeds_witness :
  (forall p l, Permutation (list_order p l) l)
  /\ frames_decodable hero_a = true
  /\ forallb (fun d => no_dir_at None (sheet_file (name hero_a) d)) DIRECTIONS = true
  /\ 0 < count_max_frames list_order ["bolt"%string] hero_a (name hero_a)
  /\ exists t' m, process_character list_order None ["bolt"%string] hero_a [] = (t', Ok m).
Proof.
  assert (Hd : frames_decodable hero_a = true) by (vm_compute; reflexivity).
  assert (Hout : forallb (fun d => no_dir_at None (sheet_file (name hero_a) d)) DIRECTIONS = true)
    by reflexivity.
  assert (Hmf : 0 < count_max_frames list_order ["bolt"%string] hero_a (name hero_a))
    by (vm_compute; lia).
  split; [exact list_order_perm|]. split; [exact Hd|]. split; [exact Hout|]. split; [exact Hmf|].
  exact (process_character_succeeds list_order list_order_perm None ["bolt"%string] hero_a []
           Hd Hout Hmf).
Defined.

(** An enemy with two [breathing-idle] frames facing south. *)
Definition slime_a : entry :=
  Dir "slime" [Dir "animations" [Dir "breathing-idle" [
    Dir "south" [frame_file "frame_000.png"; frame_file "frame_001.png"]]]]%string.

Lemma process_enemy_succeeds_witness :
  (forall p l, Permutation (list_order p l) l)
  /\ frames_decodable slime_a = true
  /\ forallb (fun d => no_dir_at None (sheet_file (name slime_a) d)) DIRECTIONS = true
  /\ 0 < count_enemy_max_frames list_order ["enemies"; "slime"]%string slime_a (name slime_a)
  /\ exists t' m, process_enemy list_order None ["enemies"; "slime"]%string slime_a [] = (t', Ok m).
Proof.
  assert (Hd : frames_decodable slime_a = true) by (vm_compute; reflexivity).
  assert (Hout : forallb (fun d => no_dir_at None (sheet_file (name slime_a) d)) DIRECTIONS = true)
    by reflexivity.
  assert (Hmf : 0 < count_enemy_max_frames list_order ["enemies"; "slime"]%string slime_a
                      (name slime_a)) by (vm_compute; lia).
  split; [exact list_order_perm|]. split; [exact Hd|]. split; [exact Hout|]. split; [exact Hmf|].
  exact (process_enemy_succeeds list_order list_order_perm None ["enemies"; "slime"]%string
           slime_a [] Hd Hout Hmf).
Defined.

(** X7. When the asset root is a file, or [sheets] inside it is a regular
    file, [mkdir] fails before anything else happens: the run prints
    nothing, writes nothing and exits with status 1. *)
Theorem unusable_root_aborts (o : path -> list entry -> list entry) (rt : entry)
    (H : is_dir rt = false \/ exists f x, child (Some rt) "sheets" = Some (File f x)) :
  run_script o (Some rt) = ([], 1).
Proof.
  unfold run_script, main, bind, mkdir_sheets. destruct rt as [n x|r ch]; [reflexivity|].
  destruct H as [H|[f [x H]]]; [discriminate|]. cbn [child] in H. rewrite H. reflexivity.
Qed.

Definition root_with_sheets_file : entry :=
  Dir "pixellab" [File "sheets" None; hero_a]%string.

Lemma unusable_root_aborts_witness :
  (is_dir root_with_sheets_file = false
   \/ exists f x, child (Some root_with_sheets_file) "sheets" = Some (File f x))
  /\ run_script list_order (Some root_with_sheets_file) = ([], 1).
Proof.
  assert (H : is_dir root_with_sheets_file = false
              \/ exists f x, child (Some root_with_sheets_file) "sheets" = Some (File f x)).
  { right. exists "sheets"%string, None. reflexivity. }
  split; [exact H|]. exact (unusable_root_aborts list_order root_with_sheets_file H).
Defined.

(** ** Events of a whole run *)

Lemma spec_of_ok {A} P (Q : A -> Prop) (m : M A) :
  spec_M P (fun _ => True) m -> (forall t t' a, m t = (t', Ok a) -> Q a) -> spec_M P Q m.
Proof.
  intros Hm Hq t t' r E. destruct (Hm _ _ _ E) as [tn [-> [Hf _]]].
  exists tn. split; [reflexivity|]. split; [exact Hf|]. intros a ->. exact (Hq _ _ _ E).
Qed.

Section RunEvents.

(** A property of events that holds of every print, of every sheet written
    to [sheets/<n>_<direction>.png] and of the metadata written to
    [sheets/metadata.json]. *)
Variable P : event -> Prop.
Hypothesis P_print : forall m, P (Print m).
Hypothesis P_png : forall n d img, In d DIRECTIONS -> P (SavePng ["sheets"%string; sheet_file n d] img).
Hypothesis P_json : forall doc, P (WriteJson ["sheets"%string; "metadata.json"%string] doc).

Lemma warnings_P {A} (m : M A) : spec_M is_warning (fun _ => True) m -> spec_M P (fun _ => True) m.
Proof.
  intros H. eapply spec_weaken; [exact H| |auto].
  intros [m'| | |]; [intros _; apply P_print|cbn; tauto..].
Qed.

Lemma directions_loop_P out n (create : string -> M (image * anims_meta)) :
  (forall d, spec_M is_warning (fun _ => True) (create d)) ->
  spec_M P (fun _ => True) (directions_loop out n create).
Proof.
  intros Hc. unfold directions_loop. apply spec_foldM; [trivial|]. intros acc d Hd _.
  apply spec_bind with (Q := fun _ => True); [apply spec_tell; [apply P_print|trivial]|]. intros ? _.
  apply spec_bind with (Q := fun _ => True); [apply warnings_P, Hc|].
  intros [sheet am] _.
  apply spec_bind with (Q := fun _ => True).
  { unfold save_png. destruct (child out (sheet_file n d)) as [[|]|];
      try destruct (png_encodable sheet); try apply spec_raise;
      apply spec_tell; [apply P_png, Hd|trivial|apply P_png, Hd|trivial]. }
  intros ? _. apply spec_bind with (Q := fun _ => True); [apply spec_tell; [apply P_print|trivial]|].
  intros ? _. apply spec_ret. trivial.
Qed.

Lemma process_character_P o out cp cd : spec_M P (fun _ => True) (process_character o out cp cd).
Proof.
  unfold process_character.
  apply spec_bind with (Q := fun _ => True); [apply spec_tell; [apply P_print|trivial]|]. intros ? _.
  apply spec_bind with (Q := fun _ => True); [apply spec_tell; [apply P_print|trivial]|]. intros ? _.
  apply spec_bind with (Q := fun _ => True); [|intros; apply spec_ret; trivial].
  apply directions_loop_P. intros d. apply create_sprite_sheet_warnings.
Qed.

Lemma process_enemy_P o out ep ed : spec_M P (fun _ => True) (process_enemy o out ep ed).
Proof.
  unfold process_enemy.
  apply spec_bind with (Q := fun _ => True); [apply spec_tell; [apply P_print|trivial]|]. intros ? _.
  apply spec_bind with (Q := fun _ => True); [apply spec_tell; [apply P_print|trivial]|]. intros ? _.
  apply spec_bind with (Q := fun _ => True); [|intros; apply spec_ret; trivial].
  apply directions_loop_P. intros d. apply create_enemy_sprite_sheet_warnings.
Qed.

Lemma iterdir_P o p d : spec_M P (fun _ => True) (iterdir o p d).
Proof. unfold iterdir. destruct d; [apply spec_raise|apply spec_ret; trivial]. Qed.

Lemma toml_example_P doc : spec_M P (fun _ => True) (toml_example doc).
Proof.
  unfold toml_example.
  apply spec_bind with (Q := fun _ => True); [apply spec_tell; [apply P_print|trivial]|]. intros ? _.
  destruct (dict_get "bolt" doc) as [[c fs mf dirs|c fs mf dirs]|]; [| |apply spec_ret; trivial];
    (destruct (dict_get "east" dirs); [apply spec_tell; [apply P_print|trivial]|apply spec_raise]).
Qed.

(** Everything [main] does after [mkdir]. *)
Lemma process_all_P o out rt' : spec_M P (fun _ => True) (process_all o out rt').
Proof.
  unfold process_all, process_enemies, finish.
  apply spec_bind with (Q := fun _ => True); [apply iterdir_P|]. intros es _.
  apply spec_bind with (Q := fun _ => True).
  { apply spec_foldM; [trivial|]. intros acc x _ _. unfold hero_step.
    destruct (is_dir x && negb (in_list (name x) skip_dirs)); [|apply spec_ret; trivial].
    destruct (exists_ (child (Some x) "animations")); [|apply spec_ret; trivial].
    apply spec_bind with (Q := fun _ => True); [apply process_character_P|].
    intros ? _. apply spec_ret. trivial. }
  intros doc _. apply spec_bind with (Q := fun _ => True).
  { destruct (child (Some rt') "enemies") as [ed|]; [|apply spec_ret; trivial].
    apply spec_bind with (Q := fun _ => True); [apply spec_tell; [apply P_print|trivial]|]. intros ? _.
    apply spec_bind with (Q := fun _ => True); [apply iterdir_P|]. intros es' _.
    apply spec_foldM; [trivial|]. intros acc x _ _. unfold enemy_step.
    destruct (is_dir x && in_keys (name x) ENEMY_ANIM_ORDER); [|apply spec_ret; trivial].
    apply spec_bind with (Q := fun _ => True); [apply process_enemy_P|].
    intros ? _. apply spec_ret. trivial. }
  intros doc' _.
  apply spec_bind with (Q := fun _ => True).
  { unfold write_json. destruct (child out "metadata.json") as [[|]|];
      [apply spec_tell; [apply P_json|trivial]|apply spec_raise|apply spec_tell; [apply P_json|trivial]]. }
  intros ? _. apply spec_bind with (Q := fun _ => True); [apply spec_tell; [apply P_print|trivial]|].
  intros ? _. apply toml_example_P.
Qed.

End RunEvents.

(** Where a run writes. *)
Definition in_sheets (ev : event) : Prop :=
  match ev with
  | Print _ => True
  | Mkdir p => p = ["sheets"%string]
  | SavePng p _ => exists n d, In d DIRECTIONS /\ p = ["sheets"%string; sheet_file n d]
  | WriteJson p _ => p = ["sheets"%string; "metadata.json"%string]
  end.

(** X8. A run writes only inside [sheets/]: the only directory it creates
    is [sheets] itself, every image it writes is [sheets/<n>_<d>.png] for a
    direction [d] of [DIRECTIONS], and the only other file it writes is
    [sheets/metadata.json]. *)
Theorem writes_only_in_sheets (o : path -> list entry -> list entry) (root : option entry) :
  Forall in_sheets (fst (run_script o root)).
Proof.
  assert (Hm : spec_M in_sheets (fun _ => True) (main o root)).
  { unfold main. destruct root as [rt|]; [|apply spec_tell; [exact I|trivial]].
    apply spec_bind with (Q := fun _ => True).
    - eapply spec_weaken; [apply mkdir_sheets_children| |auto]. intros ev ->. reflexivity.
    - intros rt' _. apply process_all_P.
      + intros m. exact I.
      + intros n d img Hd. exists n, d. split; [exact Hd|reflexivity].
      + intros doc. reflexivity. }
  unfold run_script. destruct (main o root []) as [t' r] eqn:E.
  destruct (Hm _ _ _ E) as [tn [-> [Hf _]]]. destruct r; exact Hf.
Qed.

(** The directories a trace creates, in order. *)
Definition mkdirs (tn : list event) : list path :=
  flat_map (fun ev => match ev with Mkdir p => [p] | _ => [] end) tn.

Definition not_mkdir (ev : event) : Prop := match ev with Mkdir _ => False | _ => True end.

Lemma mkdirs_none tn : Forall not_mkdir tn -> mkdirs tn = [].
Proof. induction 1 as [|[m| | |] tn H _ IH]; cbn in *; tauto. Qed.

Lemma process_all_no_mkdir o out rt' t t' r :
  process_all o out rt' t = (t', r) -> exists tn, t' = t ++ tn /\ mkdirs tn = [].
Proof.
  intros E. destruct (process_all_P not_mkdir (fun m => I) (fun n d img _ => I) (fun doc => I)
                        o out rt' _ _ _ E) as [tn [-> [Hf _]]].
  exists tn. split; [reflexivity|apply mkdirs_none, Hf].
Qed.

(** X9. A run on an existing asset root creates [sheets/] exactly once,
    when the root is a directory with no [sheets] entry, and otherwise
    creates no directory at all. *)
Theorem sheets_created_iff_absent (o : path -> list entry -> list entry) (rt : entry) :
  mkdirs (fst (run_script o (Some rt))) =
  if is_dir rt && negb (exists_ (child (Some rt) "sheets")) then [["sheets"%string]] else [].
Proof.
  unfold run_script, main. destruct rt as [n x|r ch]; [reflexivity|].
  cbn [is_dir andb child]. unfold bind at 1, mkdir_sheets.
  destruct (find_child "sheets" ch) as [[f x|s sch]|] eqn:Es; cbn [exists_ negb].
  - reflexivity.
  - unfold ret. match goal with |- context [process_all o ?out ?rt' ?t] =>
      destruct (process_all o out rt' t) as [t' res] eqn:E end.
    destruct (process_all_no_mkdir _ _ _ _ _ _ E) as [tn [-> Hm]].
    destruct res; exact Hm.
  - unfold bind, tell, ret.
    match goal with |- context [process_all o ?out ?rt' ?t] =>
      destruct (process_all o out rt' t) as [t' res] eqn:E end.
    destruct (process_all_no_mkdir _ _ _ _ _ _ E) as [tn [-> Hm]].
    destruct res; cbn [fst]; unfold mkdirs in *; rewrite flat_map_app, Hm; reflexivity.
Qed.

(** ** The metadata file is written exactly when the run succeeds *)

Definition not_json (ev : event) : Prop := match ev with WriteJson _ _ => False | _ => True end.

Definition has_east (m : entity_meta) : Prop :=
  match m with
  | CharacterMeta _ _ _ dirs | EnemyMeta _ _ _ dirs => exists dm, dict_get "east" dirs = Some dm
  end.

Definition doc_has_east (doc : metadata_doc) : Prop := forall k v, In (k, v) doc -> has_east v.

Lemma sheets_saved_east n create tn dirs :
  sheets_saved n create tn dirs -> exists dm, dict_get "east" dirs = Some dm.
Proof.
  intros [_ [_ Hall]]. destruct (Hall "east"%string) as [t0 [t1 [img [am [_ [_ Hg]]]]]];
    [right; right; left; reflexivity|].
  eexists. exact Hg.
Qed.

Lemma process_character_east o out cp cd :
  spec_M not_json has_east (process_character o out cp cd).
Proof.
  apply spec_of_ok.
  - eapply spec_weaken; [apply process_character_events| |auto].
    intros [m| | |]; cbn; [|tauto..]. destruct m; cbn; tauto.
  - intros t t' m E. destruct (process_character_ok _ _ _ _ _ _ _ E) as [tn [dirs [_ [-> Hs]]]].
    exact (sheets_saved_east _ _ _ _ Hs).
Qed.

Lemma process_enemy_east o out ep ed :
  spec_M not_json has_east (process_enemy o out ep ed).
Proof.
  apply spec_of_ok.
  - eapply spec_weaken; [apply process_enemy_events| |auto].
    intros [m| | |]; cbn; [|tauto..]. destruct m; cbn; tauto.
  - intros t t' m E. destruct (process_enemy_ok _ _ _ _ _ _ _ E) as [tn [dirs [_ [-> Hs]]]].
    exact (sheets_saved_east _ _ _ _ Hs).
Qed.

Lemma doc_has_east_set doc k m :
  doc_has_east doc -> has_east m -> doc_has_east (dict_set k m doc).
Proof.
  intros Hd Hm k' v Hin. apply in_dict_set in Hin as [[_ ->]|Hin]; [exact Hm|exact (Hd _ _ Hin)].
Qed.

(** Everything [main] does before writing the metadata: no metadata file
    written yet, and every entity has an [east] direction. *)
Lemma heroes_east o out acc es :
  doc_has_east acc -> spec_M not_json doc_has_east (foldM (hero_step o out) acc es).
Proof.
  intros Hacc. apply spec_foldM; [exact Hacc|]. intros a x _ Ha. unfold hero_step.
  destruct (is_dir x && negb (in_list (name x) skip_dirs)); [|apply spec_ret; exact Ha].
  destruct (exists_ (child (Some x) "animations")); [|apply spec_ret; exact Ha].
  apply spec_bind with (Q := has_east); [apply process_character_east|].
  intros m Hm. apply spec_ret. apply doc_has_east_set; assumption.
Qed.

Lemma enemies_east o out rt' acc :
  doc_has_east acc -> spec_M not_json doc_has_east (process_enemies o out rt' acc).
Proof.
  intros Hacc. unfold process_enemies.
  destruct (child (Some rt') "enemies") as [ed|]; [|apply spec_ret; exact Hacc].
  apply spec_bind with (Q := fun _ => True); [apply spec_tell; [exact I|trivial]|]. intros ? _.
  apply spec_bind with (Q := fun _ => True).
  { unfold iterdir. destruct ed; [apply spec_raise|apply spec_ret; trivial]. }
  intros es _. apply spec_foldM; [exact Hacc|]. intros acc1 x _ Ha. unfold enemy_step.
  destruct (is_dir x && in_keys (name x) ENEMY_ANIM_ORDER); [|apply spec_ret; exact Ha].
  apply spec_bind with (Q := has_east); [apply process_enemy_east|].
  intros m Hm. apply spec_ret. apply doc_has_east_set; assumption.
Qed.

Lemma toml_example_ok doc t :
  doc_has_east doc -> exists tn, toml_example doc t = (t ++ tn, Ok tt) /\ Forall not_json tn.
Proof.
  intros Hd. unfold toml_example, bind, tell.
  destruct (dict_get "bolt" doc) as [m|] eqn:Eb.
  - apply dict_get_in in Eb. pose proof (Hd _ _ Eb) as He.
    destruct m as [c fs mf dirs|c fs mf dirs]; cbn [has_east] in He; destruct He as [dm Hdm];
      rewrite Hdm; (eexists; split; [rewrite <- app_assoc; reflexivity|repeat constructor]).
  - unfold ret. exists [Print MTomlHeader]. split; [reflexivity|repeat constructor].
Qed.

(** [m] writes the metadata file exactly when it returns normally. *)
Definition json_iff_ok {A : Type} (m : M A) : Prop :=
  forall t t' r, Forall not_json t -> m t = (t', r) ->
    ((exists p doc, In (WriteJson p doc) t') <-> exists a, r = Ok a).

Lemma json_iff_ok_bind {A B} (Q : A -> Prop) (m : M A) (k : A -> M B) :
  spec_M not_json Q m -> (forall a, Q a -> json_iff_ok (k a)) -> json_iff_ok (bind m k).
Proof.
  intros Hm Hk t t' r Ht E. unfold bind in E.
  destruct (m t) as [t1 [a|e]] eqn:E1.
  - destruct (Hm _ _ _ E1) as [tn [-> [Hn HQ]]].
    exact (Hk a (HQ a eq_refl) _ _ _ (proj2 (Forall_app _ _ _) (conj Ht Hn)) E).
  - inversion E; subst. destruct (Hm _ _ _ E1) as [tn [-> [Hn _]]]. split.
    + intros [p [doc Hin]]. exfalso.
      assert (Hf : Forall not_json (t ++ tn)) by (apply Forall_app; split; assumption).
      rewrite Forall_forall in Hf. exact (Hf _ Hin).
    + intros [a Ha]. discriminate.
Qed.

Lemma finish_json_iff_ok out doc : doc_has_east doc -> json_iff_ok (finish out doc).
Proof.
  intros Hd t t' r Ht E. unfold finish, write_json in E.
  destruct (child out "metadata.json") as [[f x|n ch]|].
  2:{ cbv [bind raise] in E. inversion E; subst. split.
      - intros [p [doc' Hin]]. rewrite Forall_forall in Ht. destruct (Ht _ Hin).
      - intros [a Ha]; discriminate. }
  all: unfold bind at 1 2, tell at 1 2 in E;
    destruct (toml_example_ok doc ((t ++ [WriteJson ["sheets"%string; "metadata.json"%string] doc])
                                     ++ [Print (MMetadataSaved ["sheets"%string; "metadata.json"%string])]) Hd)
      as [tn [Et _]];
    rewrite Et in E; inversion E; subst;
    (split; [intros _; exists tt; reflexivity|intros _]);
    exists ["sheets"%string; "metadata.json"%string], doc;
    rewrite !in_app_iff; left; left; right; left; reflexivity.
Qed.

Lemma main_json_iff_ok o rt : json_iff_ok (main o (Some rt)).
Proof.
  unfold main, process_all.
  apply json_iff_ok_bind with (Q := fun _ => True).
  { eapply spec_weaken; [apply mkdir_sheets_children| |auto]. intros ev ->. exact I. }
  intros rt' _. apply json_iff_ok_bind with (Q := fun _ => True).
  { unfold iterdir. destruct rt'; [apply spec_raise|apply spec_ret; trivial]. }
  intros es _. apply json_iff_ok_bind with (Q := doc_has_east).
  { apply heroes_east. intros k v []. }
  intros doc Hdoc. apply json_iff_ok_bind with (Q := doc_has_east); [apply enemies_east, Hdoc|].
  intros doc' Hdoc'. apply finish_json_iff_ok, Hdoc'.
Qed.

(** X10. On an existing asset root, the run writes [sheets/metadata.json]
    if and only if it exits with status 0: every failure happens before the
    metadata is written, and once it is written the rest of the run (the
    TOML example, which looks up [bolt]'s [east] direction) cannot fail. *)
Theorem metadata_written_iff_exit_zero (o : path -> list entry -> list entry) (rt : entry) :
  (exists p doc, In (WriteJson p doc) (fst (run_script o (Some rt))))
  <-> snd (run_script o (Some rt)) = 0.
Proof.
  unfold run_script. destruct (main o (Some rt) []) as [t' r] eqn:E.
  pose proof (main_json_iff_ok o rt [] t' r (Forall_nil _) E) as H.
  destruct r as [u|e]; cbn [fst snd]; rewrite H.
  - split; [reflexivity|intros _; exists u; reflexivity].
  - split; [intros [a Ha]; discriminate|discriminate].
Qed.

(** ** The shape of the metadata document *)

(** The keys after a sequence of [d[k] = v]. *)
Definition add_keys (ks l : list string) : list string := fold_left (fun ks k => add_key k ks) l ks.

Lemma in_list_app k l1 l2 : in_list k (l1 ++ l2) = in_list k l1 || in_list k l2.
Proof. unfold in_list. apply existsb_app. Qed.

Lemma add_keys_distinct l1 l2 :
  NoDup l2 -> add_keys l1 l2 = l1 ++ filter (fun k => negb (in_list k l1)) l2.
Proof.
  revert l1; induction l2 as [|k l2 IH]; intros l1 Hd; cbn [add_keys fold_left filter].
  - rewrite app_nil_r. reflexivity.
  - inversion Hd as [|? ? Hk Hd']; subst. fold (add_keys (add_key k l1) l2).
    rewrite (IH _ Hd'). unfold add_key. destruct (in_list k l1) eqn:E; cbn [negb]; [reflexivity|].
    rewrite <- app_assoc. cbn [app]. f_equal. f_equal. apply filter_ext_in. intros x Hx.
    rewrite in_list_app. cbn [in_list existsb]. rewrite orb_false_r.
    destruct (String.eqb_spec x k) as [->|_]; [contradiction|]. rewrite orb_false_r. reflexivity.
Qed.

(** A loop over entries whose step, for the entries [b] accepts, sets the
    key [name x] to a value satisfying [G], and otherwise does nothing. *)
Lemma dict_loop {V} P (b : entry -> bool) (G : string -> V -> Prop)
    (f : list (string * V) -> entry -> M (list (string * V))) l acc :
  (forall a x, In x l ->
     spec_M P (fun a' => if b x then exists v, a' = dict_set (name x) v a /\ G (name x) v
                         else a' = a) (f a x)) ->
  spec_M P (fun acc' => map fst acc' = add_keys (map fst acc) (map name (filter b l))
              /\ forall k, (In k (map name (filter b l)) -> exists v, dict_get k acc' = Some v /\ G k v)
                        /\ (~ In k (map name (filter b l)) -> dict_get k acc' = dict_get k acc))
    (foldM f acc l).
Proof.
  revert acc; induction l as [|x l IH]; intros acc Hf; cbn [foldM].
  - apply spec_ret. split; [reflexivity|]. intros k. split; [intros []|reflexivity].
  - apply spec_bind with (Q := fun a' => if b x then exists v, a' = dict_set (name x) v acc /\ G (name x) v
                                         else a' = acc);
      [apply Hf; left; reflexivity|].
    intros a Ha. eapply spec_weaken; [apply IH; intros a' x' Hx; apply Hf; right; exact Hx|auto|].
    intros acc' [Hk Hg]. cbn [filter].
    destruct (b x).
    + destruct Ha as [v [-> Hv]]. cbn [map]. split.
      * rewrite Hk, dict_set_keys. reflexivity.
      * intros k. destruct (Hg k) as [Hin Hout]. split.
        -- intros Hk'. destruct (in_dec String.string_dec k (map name (filter b l))) as [Hl|Hl];
             [exact (Hin Hl)|].
           destruct Hk' as [<-|Hk']; [|contradiction].
           exists v. split; [rewrite (Hout Hl); apply dict_get_set_same|exact Hv].
        -- intros Hn. rewrite Hout by (intros H; apply Hn; right; exact H).
           apply dict_get_set_other. intros ->. apply Hn. left. reflexivity.
    + subst a. split; [exact Hk|exact Hg].
Qed.

Definition hero_dir_b (e : entry) : bool :=
  is_dir e && negb (in_list (name e) skip_dirs) && exists_ (child (Some e) "animations").

Definition enemy_dir_b (e : entry) : bool := is_dir e && in_keys (name e) ENEMY_ANIM_ORDER.

(** The names [main] processes as heroes, in processing order. *)
Definition hero_names (rt : entry) : list string :=
  map name (filter hero_dir_b (sorted_entries (dir_children rt))).

(** The names [main] processes as enemies, in processing order. *)
Definition enemy_names (rt : entry) : list string :=
  match child (Some rt) "enemies" with
  | Some (Dir _ ch) => map name (filter enemy_dir_b (sorted_entries ch))
  | _ => []
  end.

Definition is_hero_meta (k : string) (m : entity_meta) : Prop :=
  exists fs mf dirs, m = CharacterMeta k fs mf dirs.

Definition is_enemy_meta (k : string) (m : entity_meta) : Prop :=
  exists fs mf dirs, m = EnemyMeta k fs mf dirs.

Definition doc_shape (rt : entry) (doc : metadata_doc) : Prop :=
  map fst doc = hero_names rt ++ filter (fun k => negb (in_list k (hero_names rt))) (enemy_names rt)
  /\ forall k,
       (In k (enemy_names rt) -> exists m, dict_get k doc = Some m /\ is_enemy_meta k m)
       /\ (In k (hero_names rt) -> ~ In k (enemy_names rt) ->
           exists m, dict_get k doc = Some m /\ is_hero_meta k m).

Definition shape_event (rt : entry) (ev : event) : Prop :=
  match ev with WriteJson _ doc => doc_shape rt doc | _ => True end.

Lemma hero_step_sets o out rt a x :
  spec_M (shape_event rt)
    (fun a' => if hero_dir_b x then exists v, a' = dict_set (name x) v a /\ is_hero_meta (name x) v
               else a' = a) (hero_step o out a x).
Proof.
  unfold hero_step, hero_dir_b.
  destruct (is_dir x && negb (in_list (name x) skip_dirs)); cbn [andb]; [|apply spec_ret; reflexivity].
  destruct (exists_ (child (Some x) "animations")); [|apply spec_ret; reflexivity].
  apply spec_bind with (Q := is_hero_meta (name x)).
  - apply spec_of_ok.
    + eapply spec_weaken; [apply process_character_events| |auto].
      intros [m| | |]; cbn; [|tauto..]. destruct m; cbn; tauto.
    + intros t t' m E. destruct (process_character_ok _ _ _ _ _ _ _ E) as [tn [dirs [_ [-> _]]]].
      do 3 eexists. reflexivity.
  - intros m Hm. apply spec_ret. exists m. split; [reflexivity|exact Hm].
Qed.

Lemma enemy_step_sets o out rt a x :
  spec_M (shape_event rt)
    (fun a' => if enemy_dir_b x then exists v, a' = dict_set (name x) v a /\ is_enemy_meta (name x) v
               else a' = a) (enemy_step o out a x).
Proof.
  unfold enemy_step, enemy_dir_b.
  destruct (is_dir x && in_keys (name x) ENEMY_ANIM_ORDER); [|apply spec_ret; reflexivity].
  apply spec_bind with (Q := is_enemy_meta (name x)).
  - apply spec_of_ok.
    + eapply spec_weaken; [apply process_enemy_events| |auto].
      intros [m| | |]; cbn; [|tauto..]. destruct m; cbn; tauto.
    + intros t t' m E. destruct (process_enemy_ok _ _ _ _ _ _ _ E) as [tn [dirs [_ [-> _]]]].
      do 3 eexists. reflexivity.
  - intros m Hm. apply spec_ret. exists m. split; [reflexivity|exact Hm].
Qed.

Lemma spec_split {A} P (Q : A -> Prop) (m : M A) :
  spec_M P (fun _ => True) m -> spec_M (fun _ => True) Q m -> spec_M P Q m.
Proof.
  intros H1 H2 t t' r E. destruct (H1 _ _ _ E) as [tn [-> [Hf _]]].
  destruct (H2 _ _ _ E) as [tn' [Ht [_ HQ]]].
  exists tn. split; [reflexivity|]. split; [exact Hf|exact HQ].
Qed.

Lemma find_child_app c l1 l2 :
  find_child c (l1 ++ l2) = match find_child c l1 with Some e => Some e | None => find_child c l2 end.
Proof.
  unfold find_child. induction l1 as [|x l1 IH]; cbn; [reflexivity|].
  destruct (String.eqb (name x) c); [reflexivity|exact IH].
Qed.

Lemma mkdir_sheets_shape rt :
  wfb rt = true ->
  spec_M (shape_event rt)
    (fun rt' => wfb rt' = true
       /\ filter hero_dir_b (sorted_entries (dir_children rt'))
          = filter hero_dir_b (sorted_entries (dir_children rt))
       /\ child (Some rt') "enemies" = child (Some rt) "enemies")
    (mkdir_sheets rt).
Proof.
  intros Hw. apply spec_split.
  { eapply spec_weaken; [apply mkdir_sheets_children| |auto]. intros ev ->. exact I. }
  unfold mkdir_sheets. destruct rt as [n x|r ch]; [apply spec_raise|].
  pose proof Hw as Hw'. apply wfb_Dir_iff in Hw' as [Hd Hall].
  destruct (find_child "sheets" ch) as [[f x|s sch]|] eqn:Es;
    [apply spec_raise|apply spec_ret; auto|].
  apply spec_bind with (Q := fun _ => True); [apply spec_tell; trivial|]. intros ? _.
  apply spec_ret.
  assert (Hd' : NoDup (map name (ch ++ [Dir "sheets" []]))).
  { rewrite map_app. eapply Permutation_NoDup; [apply Permutation_cons_append|].
    constructor; [|exact Hd]. intros Hin. apply in_map_iff in Hin as [y [Hy Hin]].
    pose proof (find_none _ _ Es y Hin) as Hf. cbv beta in Hf. rewrite Hy in Hf. discriminate. }
  split; [|split].
  - apply wfb_Dir_iff. split; [exact Hd'|].
    intros y Hy. apply in_app_or in Hy as [Hy|[<-|[]]]; [apply Hall, Hy|reflexivity].
  - cbn [dir_children]. rewrite <- (sorted_entries_filter _ _ Hd'), <- (sorted_entries_filter _ _ Hd).
    rewrite filter_app. cbn. rewrite app_nil_r. reflexivity.
  - cbn [child]. rewrite find_child_app. destruct (find_child "enemies" ch); reflexivity.
Qed.

Lemma listing_names_NoDup (f : entry -> bool) l :
  NoDup (map name l) -> NoDup (map name (filter f (sorted_entries l))).
Proof.
  intros Hd. apply NoDup_map_filter. eapply Permutation_NoDup; [|exact Hd].
  apply Permutation_map. symmetry. apply sorted_entries_perm.
Qed.

Lemma hero_names_NoDup rt : wfb rt = true -> NoDup (hero_names rt).
Proof.
  intros Hw. unfold hero_names. apply listing_names_NoDup.
  destruct rt as [n x|r ch]; [constructor|]. apply wfb_Dir_iff in Hw as [Hd _]. exact Hd.
Qed.

Lemma enemy_names_NoDup rt : wfb rt = true -> NoDup (enemy_names rt).
Proof.
  intros Hw. unfold enemy_names. pose proof (wf_child (Some rt) "enemies" Hw) as Hc.
  destruct (child (Some rt) "enemies") as [[f x|r ch]|]; try constructor.
  apply listing_names_NoDup. cbn [wf_opt] in Hc. apply wfb_Dir_iff in Hc as [Hd _]. exact Hd.
Qed.

(** The facts the hero loop leaves on the document. *)
Definition heroes_done (rt : entry) (doc : metadata_doc) : Prop :=
  map fst doc = add_keys [] (hero_names rt)
  /\ forall k, (In k (hero_names rt) -> exists v, dict_get k doc = Some v /\ is_hero_meta k v)
            /\ (~ In k (hero_names rt) -> dict_get k doc = @dict_get entity_meta k []).

Lemma shape_of_loops rt doc doc' :
  wfb rt = true -> heroes_done rt doc ->
  map fst doc' = add_keys (map fst doc) (enemy_names rt) ->
  (forall k, (In k (enemy_names rt) -> exists v, dict_get k doc' = Some v /\ is_enemy_meta k v)
          /\ (~ In k (enemy_names rt) -> dict_get k doc' = dict_get k doc)) ->
  doc_shape rt doc'.
Proof.
  intros Hw [Hk1 Hg1] Hk2 Hg2. split.
  - assert (Hn : add_keys [] (hero_names rt) = hero_names rt).
    { rewrite (add_keys_distinct [] _ (hero_names_NoDup _ Hw)). cbn [app].
      rewrite (filter_ext (fun k => negb (in_list k [])) (fun _ => true)) by reflexivity.
      apply filter_true. }
    rewrite Hk2, Hk1, Hn. apply (add_keys_distinct _ _ (enemy_names_NoDup _ Hw)).
  - intros k. split; [apply (Hg2 k)|]. intros Hh He.
    rewrite (proj2 (Hg2 k) He). apply (proj1 (Hg1 k) Hh).
Qed.

Lemma finish_shape out rt doc :
  doc_shape rt doc -> spec_M (shape_event rt) (fun _ => True) (finish out doc).
Proof.
  intros Hs. unfold finish, write_json.
  apply spec_bind with (Q := fun _ => True).
  { destruct (child out "metadata.json") as [[f x|r ch]|];
      [apply spec_tell; auto|apply spec_raise|apply spec_tell; auto]. }
  intros ? _. apply spec_bind with (Q := fun _ => True); [apply spec_tell; exact I|].
  intros ? _. unfold toml_example.
  apply spec_bind with (Q := fun _ => True); [apply spec_tell; exact I|]. intros ? _.
  destruct (dict_get "bolt" doc) as [[? ? ? dirs|? ? ? dirs]|]; [| |apply spec_ret; exact I];
    (destruct (dict_get "east" dirs); [apply spec_tell; exact I|apply spec_raise]).
Qed.

Lemma enemies_shape o (Ho : forall p l, Permutation (o p l) l) out rt rt' doc :
  wfb rt = true -> child (Some rt') "enemies" = child (Some rt) "enemies" ->
  heroes_done rt doc ->
  spec_M (shape_event rt) (doc_shape rt) (process_enemies o out rt' doc).
Proof.
  intros Hw He Hh. unfold process_enemies. rewrite He.
  pose proof (wf_child (Some rt) "enemies" Hw) as Hc.
  assert (Hloop : forall ech, enemy_names rt = map name (filter enemy_dir_b (sorted_entries ech)) ->
            spec_M (shape_event rt) (doc_shape rt) (foldM (enemy_step o out) doc (sorted_entries ech))).
  { intros ech En. eapply spec_weaken;
      [apply (dict_loop _ enemy_dir_b is_enemy_meta); intros a x _; apply (enemy_step_sets o out rt)|auto|].
    intros doc' [Hk Hg]. rewrite <- En in Hk, Hg. exact (shape_of_loops _ _ _ Hw Hh Hk Hg). }
  unfold enemy_names in Hloop.
  destruct (child (Some rt) "enemies") as [[f x|re ech]|] eqn:Ee.
  - apply spec_bind with (Q := fun _ => True); [apply spec_tell; exact I|]. intros ? _.
    apply spec_bind with (Q := fun _ => False); [apply spec_raise|intros ? []].
  - apply spec_bind with (Q := fun _ => True); [apply spec_tell; exact I|]. intros ? _.
    unfold iterdir. rewrite bind_ret.
    cbn [wf_opt] in Hc. apply wfb_Dir_iff in Hc as [Hd _].
    rewrite (sorted_listing o Ho ["enemies"%string] ech Hd). apply Hloop. reflexivity.
  - apply spec_ret. apply (shape_of_loops _ _ _ Hw Hh).
    + unfold enemy_names. rewrite Ee. destruct Hh as [Hk _]. rewrite Hk.
      cbn [add_keys fold_left]. reflexivity.
    + intros k. unfold enemy_names. rewrite Ee. split; [intros []|reflexivity].
Qed.

Lemma main_shape o (Ho : forall p l, Permutation (o p l) l) rt :
  wfb rt = true -> spec_M (shape_event rt) (fun _ => True) (main o (Some rt)).
Proof.
  intros Hw. unfold main.
  apply spec_bind with (1 := mkdir_sheets_shape rt Hw). intros rt' [Hw' [Hh He]].
  unfold process_all.
  destruct rt' as [n x|r' ch'].
  { apply spec_bind with (Q := fun _ => False); [apply spec_raise|intros ? []]. }
  unfold iterdir at 1. rewrite bind_ret.
  pose proof Hw' as Hd. apply wfb_Dir_iff in Hd as [Hd _].
  rewrite (sorted_listing o Ho [] ch' Hd).
  apply spec_bind with (Q := heroes_done rt).
  { eapply spec_weaken;
      [apply (dict_loop _ hero_dir_b is_hero_meta); intros a x _; apply (hero_step_sets o _ rt)|auto|].
    intros doc [Hk Hg]. cbn [dir_children] in Hh. rewrite Hh in Hk, Hg.
    exact (conj Hk Hg). }
  intros doc Hdoc.
  apply spec_bind with (1 := enemies_shape o Ho _ rt _ doc Hw He Hdoc).
  intros doc' Hs. apply finish_shape, Hs.
Qed.

Lemma run_shape o (Ho : forall p l, Permutation (o p l) l) rt :
  wfb rt = true -> Forall (shape_event rt) (fst (run_script o (Some rt))).
Proof.
  intros Hw. unfold run_script.
  destruct (main o (Some rt) []) as [t r] eqn:E.
  destruct (main_shape o Ho rt Hw _ _ _ E) as [tn [-> [Hf _]]].
  destruct r; exact Hf.
Qed.

(** X11. On a well-formed tree, every metadata document the run writes
    has as its keys, in order, the hero directory names (the non-skipped
    top-level directories with an [animations] entry, sorted), followed by
    the enemy directory names not already used by a hero (the directories
    of [enemies/] named in [ENEMY_ANIM_ORDER], sorted). *)
Theorem metadata_keys_order o (Ho : forall p l, Permutation (o p l) l) rt
    (Hw : wfb rt = true) :
  forall p doc, In (WriteJson p doc) (fst (run_script o (Some rt))) ->
    map fst doc = hero_names rt
                  ++ filter (fun k => negb (in_list k (hero_names rt))) (enemy_names rt).
Proof.
  intros p doc Hin. pose proof (run_shape o Ho rt Hw) as Hf.
  rewrite Forall_forall in Hf. exact (proj1 (Hf _ Hin)).
Qed.

Definition heroes_and_enemy : entry :=
  Dir "pixellab" [hero_a; Dir "slime" (dir_children hero_a); Dir "enemies" [slime_a]]%string.

Lemma metadata_keys_order_witness :
  wfb heroes_and_enemy = true
  /\ hero_names heroes_and_enemy = ["bolt"; "slime"]%string
  /\ enemy_names heroes_and_enemy = ["slime"%string]
  /\ forall p doc, In (WriteJson p doc) (fst (run_script list_order (Some heroes_and_enemy))) ->
       map fst doc = hero_names heroes_and_enemy
                     ++ filter (fun k => negb (in_list k (hero_names heroes_and_enemy)))
                          (enemy_names heroes_and_enemy).
Proof.
  split; [vm_compute; reflexivity|]. split; [vm_compute; reflexivity|].
  split; [vm_compute; reflexivity|].
  apply (metadata_keys_order list_order list_order_perm heroes_and_enemy). vm_compute. reflexivity.
Defined.

(** X12. On a well-formed tree, in every metadata document the run writes,
    each enemy name maps to an enemy record under that name, and each hero
    name that is not also an enemy name maps to a character record under
    that name: an enemy overwrites a hero of the same name. *)
Theorem metadata_entry_kinds o (Ho : forall p l, Permutation (o p l) l) rt
    (Hw : wfb rt = true) :
  forall p doc, In (WriteJson p doc) (fst (run_script o (Some rt))) ->
    forall k,
      (In k (enemy_names rt) ->
         exists fs mf dirs, dict_get k doc = Some (EnemyMeta k fs mf dirs))
      /\ (In k (hero_names rt) -> ~ In k (enemy_names rt) ->
         exists fs mf dirs, dict_get k doc = Some (CharacterMeta k fs mf dirs)).
Proof.
  intros p doc Hin k. pose proof (run_shape o Ho rt Hw) as Hf.
  rewrite Forall_forall in Hf. destruct (proj2 (Hf _ Hin) k) as [He Hh]. split.
  - intros Hk. destruct (He Hk) as [m [Em [fs [mf [dirs ->]]]]]. exists fs, mf, dirs. exact Em.
  - intros Hk Hn. destruct (Hh Hk Hn) as [m [Em [fs [mf [dirs ->]]]]]. exists fs, mf, dirs. exact Em.
Qed.

Lemma metadata_entry_kinds_witness :
  wfb heroes_and_enemy = true
  /\ forall p doc, In (WriteJson p doc) (fst (run_script list_order (Some heroes_and_enemy))) ->
       exists fs mf dirs, dict_get "slime" doc = Some (EnemyMeta "slime" fs mf dirs).
Proof.
  split; [vm_compute; reflexivity|]. intros p doc Hin.
  apply (metadata_entry_kinds list_order list_order_perm heroes_and_enemy
           ltac:(vm_compute; reflexivity) p doc Hin "slime"%string).
  vm_compute. left. reflexivity.
Defined.
